(** * ngrom: Genesis ROM conversion (SMD -> BIN)

    A shallow embedding of [ngrom.cpp] and the verification of its
    byte-level behaviour: the block codec, the format detector, the format
    checker, the info reporter and the converter.

    Conventions of the embedding.
    - An [unsigned char] is a [byte]; a buffer ([unsigned char buf[N]]) is a
      [list byte] of length [N], written with stdpp's [<[i:=x]>] and read
      with [!!!].  Reading or writing outside a buffer is undefined in C;
      here a read yields [x00] and a write does nothing, and every theorem
      that depends on a buffer states its length.
    - Indices and sizes ([int], [size_t]) are [nat]: every index the program
      forms is at most 16385 and the one subtraction on a file size is
      guarded by the size check before it, so no operation wraps.
    - [QString] and [std::string] are [string].
    - The file system and the two console streams are explicit state. *)

From stdpp Require Import gmap strings list fin_maps pretty.
From Stdlib Require Import Strings.Byte Strings.Ascii.

Open Scope string_scope.
Open Scope list_scope.
Open Scope nat_scope.

(** ** Enumerations (namespace NGROM_NS) *)

Inductive RomFormat : Set := UNK_FMT | SMD | BIN.

Inductive FileCheckAction : Set := UNSET | STOP | WARN | SKIP.

#[global] Instance RomFormat_eq_dec : EqDecision RomFormat.
Proof. solve_decision. Defined.

#[global] Instance FileCheckAction_eq_dec : EqDecision FileCheckAction.
Proof. solve_decision. Defined.

(** ** Bytes and buffers *)

#[global] Instance byte_eq_dec' : EqDecision byte := Byte.byte_eq_dec.
#[global] Instance byte_inhabited : Inhabited byte := populate x00.

(** Constants.  [HALF_BLOCK] is the literal 8192 of [decodeSMDBlock]. *)
Definition NUM_HEADER_BYTES : nat := 512.
Definition HALF_BLOCK : nat := Z.to_nat 8192.
Definition NUM_SMD_BLOCK_BYTES : nat := Z.to_nat 16384.

(** [memset(buf, 0, n)] on a buffer of exactly [n] bytes. *)
Definition memset0 (n : nat) : list byte := replicate n x00.

(** ** Block codec *)

(** The loop of [decodeSMDBlock]:
    [for (i = 0; i < 8192; oddByte += 2, evenByte += 2, i++)], run for the
    [n] iterations that remain. *)
Fixpoint decode_loop (n i evenByte oddByte : nat)
    (srcSMDBlock destBINBlock : list byte) : list byte :=
  match n with
  | O => destBINBlock
  | S n' =>
      let dest1 := <[oddByte := srcSMDBlock !!! i]> destBINBlock in
      let dest2 := <[evenByte := srcSMDBlock !!! (i + HALF_BLOCK)]> dest1 in
      decode_loop n' (S i) (evenByte + 2) (oddByte + 2) srcSMDBlock dest2
  end.

Definition decodeSMDBlock (destBINBlock srcSMDBlock : list byte) : list byte :=
  decode_loop HALF_BLOCK 0 0 1 srcSMDBlock destBINBlock.

(** Modelled from the spec: the BIN-to-SMD direction, which the program does
    not implement.  The spec describes an SMD block as two half-planes: the
    first 8192 bytes are the odd bytes of the BIN block in order, the second
    8192 bytes are its even bytes in order. *)
Definition encodeSMDBlock (binBlock : list byte) : list byte :=
  ((λ i, binBlock !!! (2 * i + 1)) <$> seq 0 HALF_BLOCK) ++
  ((λ i, binBlock !!! (2 * i)) <$> seq 0 HALF_BLOCK).

(** ** C library primitives on buffers *)

(** [memcmp(a, b, n)]: the sign of the first difference among the first [n]
    bytes, compared as [unsigned char]; 0 when they agree.  A pointer into a
    buffer ([buf + k]) is the buffer from position [k] on ([drop k buf]). *)
Fixpoint memcmp (a b : list byte) (n : nat) : Z :=
  match n with
  | O => 0%Z
  | S n' =>
      let x := a !!! 0 in
      let y := b !!! 0 in
      if decide (x = y) then memcmp (drop 1 a) (drop 1 b) n'
      else if (Byte.to_N x <? Byte.to_N y)%N then (-1)%Z else 1%Z
  end.

(** [memcpy(dest, src, n)]. *)
Definition memcpy (dest src : list byte) (n : nat) : list byte :=
  take n src ++ drop n dest.

(** A [char] buffer read as a C string: the bytes before the first NUL. *)
Fixpoint c_str (buf : list byte) : string :=
  match buf with
  | [] => ""
  | b :: buf' =>
      if decide (b = x00) then ""
      else String (Ascii.ascii_of_byte b) (c_str buf')
  end.

(** The ["%02X"] conversion of one byte. *)
Definition hex_digit (n : N) : Ascii.ascii :=
  Ascii.ascii_of_N (if (n <? 10)%N then 48 + n else 55 + n).

Definition hex02X (b : byte) : string :=
  let n := Byte.to_N b in
  String (hex_digit (n / 16)) (String (hex_digit (n mod 16)) "").

(** ** Strings (QString, std::string) *)

Fixpoint str_take (n : nat) (s : string) : string :=
  match n, s with
  | S n', String c s' => String c (str_take n' s')
  | _, _ => ""
  end.

Fixpoint str_drop (n : nat) (s : string) : string :=
  match n, s with
  | S n', String _ s' => str_drop n' s'
  | _, _ => s
  end.

(** [snprintf(buf, size, ...)] keeps at most [size - 1] characters. *)
Definition snprintf (size : nat) (formatted : string) : string :=
  str_take (size - 1) formatted.

Definition lower_ascii (c : Ascii.ascii) : Ascii.ascii :=
  let n := Ascii.N_of_ascii c in
  if ((65 <=? n) && (n <=? 90))%N then Ascii.ascii_of_N (n + 32) else c.

(** [QString::toLower()]. *)
Fixpoint toLower (s : string) : string :=
  match s with
  | "" => ""
  | String c s' => String (lower_ascii c) (toLower s')
  end.

(** The part of [s] after the last occurrence of [c], if [c] occurs. *)
Fixpoint after_last (c : Ascii.ascii) (s : string) : option string :=
  match s with
  | "" => None
  | String a s' =>
      match after_last c s' with
      | Some t => Some t
      | None => if decide (a = c) then Some s' else None
      end
  end.

(** [QFileInfo::fileName()]: the name of the file without the path, that is
    what follows the last ['/']. *)
Definition QFileInfo_fileName (path : string) : string :=
  default path (after_last "/"%char path).

(** [QFileInfo::suffix()]: the characters of the file name after (and not
    including) its last ['.']; empty when the name has no ['.']. *)
Definition QFileInfo_suffix (path : string) : string :=
  default "" (after_last "."%char (QFileInfo_fileName path)).

(** [QString::replace(position, n, after)]. *)
Definition QString_replace (s : string) (position n : nat) (after : string)
  : string :=
  if String.length s <? position then s
  else str_take position s +:+ after +:+ str_drop (position + n) s.

(** ** The environment: file system and console *)

(** A line written to [std::cout] or [std::cerr], ended by [std::endl]. *)
Inductive Line : Set :=
  | Out (text : string)
  | Err (text : string).

(** The file system: the regular files by path, the paths [fopen] refuses,
    and the number of bytes the device still accepts (so that a write can
    come up short).  Paths are compared as written. *)
Record World : Type := mkWorld {
  files : gmap string (list byte);
  denied : gset string;
  space : nat
}.

Inductive Errno : Set := ENOENT | EACCES.

Definition strerror (e : Errno) : string :=
  match e with
  | ENOENT => "No such file or directory"
  | EACCES => "Permission denied"
  end.

(** A [FILE*] opened for reading: the file and the read position. *)
Record RFILE : Set := mkRFILE { r_path : string; r_pos : nat }.

Definition file_bytes (w : World) (path : string) : list byte :=
  default [] (files w !! path).

(** [fopen(path, "r")]. *)
Definition fopen_r (w : World) (path : string) : Errno + RFILE :=
  match files w !! path with
  | None => inl ENOENT
  | Some _ =>
      if decide (path ∈ denied w) then inl EACCES
      else inr (mkRFILE path 0)
  end.

(** [fread(buf, 1, n, f)]: the number of bytes read, the buffer and the
    stream afterwards. *)
Definition fread (w : World) (buf : list byte) (n : nat) (f : RFILE)
  : nat * list byte * RFILE :=
  let data := take n (drop (r_pos f) (file_bytes w (r_path f))) in
  (length data,
   data ++ drop (length data) buf,
   mkRFILE (r_path f) (r_pos f + length data)).

(** [fseek(f, offset, SEEK_SET)]. *)
Definition fseek_set (f : RFILE) (offset : nat) : RFILE :=
  mkRFILE (r_path f) offset.

(** [fopen(path, "w")]: creates the file or truncates it; the stream is
    identified by its path and writes append to the file. *)
Definition fopen_w (w : World) (path : string) : Errno + World :=
  if decide (path ∈ denied w) then inl EACCES
  else inr (mkWorld (<[path := []]> (files w)) (denied w) (space w)).

(** [fwrite(buf, 1, n, f)]: the number of bytes written and the file system
    afterwards. *)
Definition fwrite (w : World) (path : string) (buf : list byte) (n : nat)
  : nat * World :=
  let k := n `min` space w in
  (k, mkWorld (<[path := file_bytes w path ++ take k buf]> (files w))
              (denied w) (space w - k)).

(** [QFileInfo::exists()] and [QFileInfo::size()] (0 for a missing file). *)
Definition QFileInfo_exists (w : World) (path : string) : bool :=
  bool_decide (is_Some (files w !! path)).

Definition QFileInfo_size (w : World) (path : string) : nat :=
  length (file_bytes w path).

(** ** Loops with an early [return] *)

(** What one iteration of a [for] loop over the file list does: fall through
    to the next file (also on [continue]) or leave the function with
    [return b]. *)
Inductive Ctl (S : Type) : Type :=
  | Next (s : S)
  | Return (b : bool) (s : S).
Arguments Next {S} s.
Arguments Return {S} b s.

Fixpoint for_each {A S : Type} (body : A → S → Ctl S) (l : list A) (s : S)
  : Ctl S :=
  match l with
  | [] => Next s
  | a :: l' =>
      match body a s with
      | Next s' => for_each body l' s'
      | Return b s' => Return b s'
      end
  end.

(** ** Format detector *)

Definition SEGA : list byte := String.list_byte_of_string "SEGA".

Definition getLikelyFormat (headerBytes : list byte) : RomFormat :=
  if decide (0%Z = memcmp (drop 0x100 headerBytes) SEGA 4) then BIN
  else if decide (headerBytes !!! 8 = xaa ∧ headerBytes !!! 9 = xbb) then SMD
  else UNK_FMT.

(** ** Format checker *)

(** The loop state of [checkFormats]: [retval], [tmpBytes] and the console. *)
Record CheckState : Type := mkCheckState {
  chk_retval : bool;
  chk_tmpBytes : list byte;
  chk_console : list Line
}.

(** [std::cerr << fmt] prints the enumerator's value. *)
Definition RomFormat_value (fmt : RomFormat) : nat :=
  match fmt with UNK_FMT => 0 | SMD => 1 | BIN => 2 end.

Definition checkFormats_body (fmt : RomFormat) (w : World)
    (filename : string) (st : CheckState) : Ctl CheckState :=
  let retval := chk_retval st in
  let tmpBytes := chk_tmpBytes st in
  let con := chk_console st in
  match fmt with
  | BIN =>
      let con := con ++ [Out ("Checking file for BIN format: " +:+ filename)] in
      match fopen_r w filename with
      | inl saved_errno =>
          Next (mkCheckState false tmpBytes
            (con ++ [Err ("  NGROM ERROR: Failed to open file... "
                          +:+ strerror saved_errno)]))
      | inr inFile =>
          let tmpBytes := memset0 NUM_HEADER_BYTES in
          let '(numBytesRead, tmpBytes, inFile) :=
            fread w tmpBytes NUM_HEADER_BYTES inFile in
          if numBytesRead <? NUM_HEADER_BYTES then
            Next (mkCheckState false tmpBytes
              (con ++ [Err "  NGROM ERROR: Incomplete read..."]))
          else if decide (0%Z = memcmp (drop 0x100 tmpBytes) SEGA 4) then
            Next (mkCheckState retval tmpBytes (con ++ [Out "  ...GOOD!"]))
          else
            Next (mkCheckState false tmpBytes (con ++ [Out "  ...FAILED!"]))
      end
  | SMD =>
      let con := con ++ [Out ("Checking file for SMD format: " +:+ filename)] in
      match fopen_r w filename with
      | inl saved_errno =>
          Next (mkCheckState false tmpBytes
            (con ++ [Err ("  NGROM ERROR: Failed to open file... "
                          +:+ strerror saved_errno)]))
      | inr inFile =>
          let tmpBytes := memset0 NUM_HEADER_BYTES in
          let '(numBytesRead, tmpBytes, inFile) :=
            fread w tmpBytes NUM_HEADER_BYTES inFile in
          if numBytesRead <? NUM_HEADER_BYTES then
            Next (mkCheckState false tmpBytes
              (con ++ [Err "  NGROM ERROR: Incomplete read..."]))
          else if decide (tmpBytes !!! 8 ≠ xaa ∨ tmpBytes !!! 9 ≠ xbb) then
            Next (mkCheckState false tmpBytes (con ++ [Out "  ...FAILED!"]))
          else if decide (0%Z = memcmp (drop 0x100 tmpBytes) SEGA 4) then
            Next (mkCheckState false tmpBytes
              (con ++ [Out "  ...FAILED! (appears to be BIN format)"]))
          else
            Next (mkCheckState retval tmpBytes (con ++ [Out "  ...GOOD!"]))
      end
  | UNK_FMT =>
      Return false (mkCheckState retval tmpBytes
        (con ++ [Err ("NGROM ERROR: checkFormats not implemented for specified fmt: "
                      +:+ pretty (RomFormat_value fmt))]))
  end.

(** [checkFormats(fmt, filenameList)] on the file system [w]: the value
    returned and what was printed. *)
Definition checkFormats (fmt : RomFormat) (w : World)
    (filenameList : list string) : bool * list Line :=
  match for_each (checkFormats_body fmt w) filenameList
          (mkCheckState true (memset0 NUM_HEADER_BYTES) []) with
  | Next st => (chk_retval st, chk_console st)
  | Return b st => (b, chk_console st)
  end.

(** ** Info reporter *)

(** A text field: [memset(decodedChars, 0, 50)],
    [memcpy(decodedChars, &tmpHeaderBytes[offset], n)], then
    [std::cout << label << decodedChars << std::endl]. *)
Definition textField (label : string) (tmpHeaderBytes : list byte)
    (offset n : nat) : Line :=
  let decodedChars := memset0 50 in
  let decodedChars := memcpy decodedChars (drop offset tmpHeaderBytes) n in
  Out (label +:+ c_str decodedChars).

(** The text printed after the ["Software type: "] label. *)
Definition softwareType (tmpHeaderBytes : list byte) : string :=
  if decide (tmpHeaderBytes !!! 0x180 = "G"%byte ∧
             tmpHeaderBytes !!! 0x181 = "M"%byte) then "Game"
  else if decide (tmpHeaderBytes !!! 0x180 = "A"%byte ∧
                  tmpHeaderBytes !!! 0x181 = "l"%byte) then "Educational"
  else String (ascii_of_byte (tmpHeaderBytes !!! 0x180))
         (String (ascii_of_byte (tmpHeaderBytes !!! 0x181)) "").

(** A hexadecimal field: [memset(hexChars, 0, 10)],
    [snprintf(hexChars, size, "%02X...", bytes...)], then
    [std::cout << label << hexChars << std::endl]. *)
Definition hexField (label : string) (size : nat) (bytes : list byte) : Line :=
  let hexChars := snprintf size (foldr (λ b acc, hex02X b +:+ acc) "" bytes) in
  Out (label +:+ hexChars).

(** The [if (okToContinue)] block of [showInfoList]. *)
Definition showHeaderFields (tmpHeaderBytes : list byte) : list Line :=
  [ textField "                    System: " tmpHeaderBytes 0x100 16;
    textField "                 Copyrigth: " tmpHeaderBytes 0x110 16;
    textField "      Game name (domestic): " tmpHeaderBytes 0x120 48;
    textField "      Game name (overseas): " tmpHeaderBytes 0x150 48;
    Out ("             Software type: " +:+ softwareType tmpHeaderBytes);
    textField "  Product code and version: " tmpHeaderBytes 0x183 11;
    hexField  "                  Checksum: 0x" 5
      [tmpHeaderBytes !!! 0x18e; tmpHeaderBytes !!! 0x18f];
    textField "               I/O support: " tmpHeaderBytes 0x190 16;
    hexField  "         ROM start address: 0x" 9
      [tmpHeaderBytes !!! 0x1a0; tmpHeaderBytes !!! 0x1a1;
       tmpHeaderBytes !!! 0x1a2; tmpHeaderBytes !!! 0x1a3];
    hexField  "           ROM end address: 0x" 9
      [tmpHeaderBytes !!! 0x1a4; tmpHeaderBytes !!! 0x1a5;
       tmpHeaderBytes !!! 0x1a6; tmpHeaderBytes !!! 0x1a7];
    textField "                Modem data: " tmpHeaderBytes 0x1bc 20;
    textField "                      Memo: " tmpHeaderBytes 0x1c8 40;
    textField "                 Countries: " tmpHeaderBytes 0x1f0 3 ].

(** The loop state of [showInfoList]: the two buffers declared before the
    loop, and the console.  [tmpSMDBlock] is cleared once, before the loop,
    and keeps its bytes from one file to the next. *)
Record InfoState : Type := mkInfoState {
  info_tmpHeaderBytes : list byte;
  info_tmpSMDBlock : list byte;
  info_console : list Line
}.

Definition skipping : Line := Out "  ... skipping.".

Definition showInfoList_body (w : World) (filename : string) (st : InfoState)
  : InfoState :=
  let tmpHeaderBytes := info_tmpHeaderBytes st in
  let tmpSMDBlock := info_tmpSMDBlock st in
  let con := info_console st ++
    [Out ("Showing info from ROM data for file: " +:+ filename)] in
  match fopen_r w filename with
  | inl saved_errno =>
      mkInfoState tmpHeaderBytes tmpSMDBlock
        (con ++ [Err ("  NGROM ERROR: Failed to open file... "
                      +:+ strerror saved_errno); skipping])
  | inr inFile =>
      let tmpHeaderBytes := memset0 NUM_SMD_BLOCK_BYTES in
      let '(numBytesRead, tmpHeaderBytes, inFile) :=
        fread w tmpHeaderBytes NUM_HEADER_BYTES inFile in
      if numBytesRead <? NUM_HEADER_BYTES then
        mkInfoState tmpHeaderBytes tmpSMDBlock
          (con ++ [Err "  NGROM ERROR: Incomplete read..."; skipping])
      else
        let likelyFmt := getLikelyFormat tmpHeaderBytes in
        let '(okToContinue, tmpHeaderBytes, tmpSMDBlock, con) :=
          match likelyFmt with
          | UNK_FMT =>
              (false, tmpHeaderBytes, tmpSMDBlock,
               con ++ [Err "  NGROM ERROR: Unrecognized file format...";
                       skipping])
          | SMD =>
              let '(numBytesRead, tmpSMDBlock, inFile) :=
                fread w tmpSMDBlock NUM_SMD_BLOCK_BYTES inFile in
              if numBytesRead <? NUM_HEADER_BYTES then
                (false, tmpHeaderBytes, tmpSMDBlock,
                 con ++ [Err "  NGROM ERROR: Incomplete read..."; skipping])
              else
                let tmpHeaderBytes := memset0 NUM_SMD_BLOCK_BYTES in
                (true, decodeSMDBlock tmpHeaderBytes tmpSMDBlock,
                 tmpSMDBlock, con)
          | BIN => (true, tmpHeaderBytes, tmpSMDBlock, con)
          end in
        if okToContinue then
          mkInfoState tmpHeaderBytes tmpSMDBlock
            (con ++ showHeaderFields tmpHeaderBytes)
        else mkInfoState tmpHeaderBytes tmpSMDBlock con
  end.

(** [showInfoList(filenameList)] on the file system [w]: what was printed. *)
Definition showInfoList (w : World) (filenameList : list string) : list Line :=
  info_console
    (foldl (λ st filename, showInfoList_body w filename st)
       (mkInfoState (memset0 NUM_SMD_BLOCK_BYTES)
                    (memset0 NUM_SMD_BLOCK_BYTES) [])
       filenameList).

(** ** Converter *)

(** The output file name of [convertFiles]. *)
Definition outFilename (filename : string) : string :=
  let outFilename := QFileInfo_fileName filename in
  if decide (toLower (QFileInfo_suffix filename) = "smd") then
    let fnameLen := String.length outFilename in
    QString_replace outFilename (fnameLen - 3) 3 "bin"
  else outFilename +:+ ".bin".

Definition outFileFullPath (outdir filename : string) : string :=
  outdir +:+ "/" +:+ outFilename filename.

(** The loop state of [convertFiles]: the file system and the console.  The
    two block buffers are cleared before every use and carry nothing from
    one iteration to the next. *)
Record ConvState : Type := mkConvState {
  conv_world : World;
  conv_console : list Line
}.

(** The block loop [for (i = 0; i < numBlocks; i++)], for the [numBlocks]
    iterations that remain: [okToContinue] and the state afterwards. *)
Fixpoint convertBlocks (numBlocks : nat) (inSMDFile : RFILE)
    (outBINFile : string) (st : ConvState) : bool * ConvState :=
  match numBlocks with
  | O => (true, st)
  | S numBlocks' =>
      let w := conv_world st in
      let con := conv_console st in
      let smdBlockBytes := memset0 NUM_SMD_BLOCK_BYTES in
      let binBlockBytes := memset0 NUM_SMD_BLOCK_BYTES in
      let '(numBytesRead, smdBlockBytes, inSMDFile) :=
        fread w smdBlockBytes NUM_SMD_BLOCK_BYTES inSMDFile in
      if numBytesRead <? NUM_SMD_BLOCK_BYTES then
        (false, mkConvState w
           (con ++ [Err "  NGROM ERROR: Incomplete read of SMD block!"]))
      else
        let binBlockBytes := decodeSMDBlock binBlockBytes smdBlockBytes in
        let '(numBytesWritten, w) :=
          fwrite w outBINFile binBlockBytes NUM_SMD_BLOCK_BYTES in
        if numBytesWritten <? NUM_SMD_BLOCK_BYTES then
          (false, mkConvState w
             (con ++ [Err "  NGROM ERROR: Incomplete write of BIN block!"]))
        else convertBlocks numBlocks' inSMDFile outBINFile (mkConvState w con)
  end.

(** The loop body from the size check on (after the collision check). *)
Definition convertData (filename outFileFullPath : string) (st : ConvState)
  : Ctl ConvState :=
  let w := conv_world st in
  let con := conv_console st in
  let fileSize := QFileInfo_size w filename in
  if fileSize <? NUM_HEADER_BYTES + NUM_SMD_BLOCK_BYTES then
    Return false (mkConvState w
      (con ++ [Err ("  NGROM ERROR: Input file is too small (only "
                    +:+ pretty fileSize +:+ " bytes)")]))
  else
    let numBlocks := (fileSize - NUM_HEADER_BYTES) / NUM_SMD_BLOCK_BYTES in
    let extraBytes :=
      ((fileSize - NUM_HEADER_BYTES) `mod` NUM_SMD_BLOCK_BYTES) in
    if 0 <? extraBytes then
      Return false (mkConvState w
        (con ++ [Err "  NGROM ERROR: Input file does not end on 16KB block boundary (possible data corruption)."]))
    else
      match fopen_r w filename with
      | inl saved_errno =>
          Return false (mkConvState w
            (con ++ [Err ("  NGROM ERROR: Failed to open INPUT file... "
                          +:+ strerror saved_errno)]))
      | inr inSMDFile =>
          match fopen_w w outFileFullPath with
          | inl saved_errno =>
              Return false (mkConvState w
                (con ++ [Err ("  NGROM ERROR: Failed to open OUTPUT file... "
                              +:+ strerror saved_errno)]))
          | inr w =>
              let inSMDFile := fseek_set inSMDFile NUM_HEADER_BYTES in
              let '(okToContinue, st) :=
                convertBlocks numBlocks inSMDFile outFileFullPath
                  (mkConvState w con) in
              if okToContinue then
                Next (mkConvState (conv_world st)
                  (conv_console st ++ [Out "  Conversion complete!"]))
              else Return false st
          end
      end.

Definition convertFiles_body (outdir : string)
    (fileCollisionAction : FileCheckAction) (filename : string)
    (st : ConvState) : Ctl ConvState :=
  let w := conv_world st in
  let outFileFullPath := outFileFullPath outdir filename in
  let con := conv_console st ++
    [Out ("Converting " +:+ filename);
     Out ("        to " +:+ outFileFullPath)] in
  if QFileInfo_exists w outFileFullPath then
    let con := con ++ [Err "  NGROM WARNING: Output file already exists!"] in
    match fileCollisionAction with
    | STOP => Return false (mkConvState w con)
    | SKIP => Next (mkConvState w (con ++ [Out "  ...skipping!"]))
    | _ => convertData filename outFileFullPath (mkConvState w con)
    end
  else convertData filename outFileFullPath (mkConvState w con).

(** [convertFiles(filenameList, outdir, fileCollisionAction)] started on the
    file system [w]: the value returned, the file system and what was
    printed. *)
Definition convertFiles (filenameList : list string) (outdir : string)
    (fileCollisionAction : FileCheckAction) (w : World)
  : bool * World * list Line :=
  match for_each (convertFiles_body outdir fileCollisionAction) filenameList
          (mkConvState w []) with
  | Next st => (true, conv_world st, conv_console st)
  | Return b st => (b, conv_world st, conv_console st)
  end.

(** ** Command line *)

Definition parseFileCheckActionString (fileCheckActionString : string)
  : FileCheckAction :=
  if decide (fileCheckActionString = "stop") then STOP
  else if decide (fileCheckActionString = "warn") then WARN
  else if decide (fileCheckActionString = "skip") then SKIP
  else UNSET.

(** What [QCommandLineParser] hands to [main] once [process] has returned:
    the positional arguments, the value of [--checks] (["stop"] when the
    option is absent), the value of [--file-collision] (["skip"] when
    absent), whether [--info] is set, and the value of [--outdir] if set. *)
Record CommandLine : Type := mkCommandLine {
  positionalArguments : list string;
  checks_value : string;
  file_collision_value : string;
  info_isSet : bool;
  outdir_value : option string
}.

(** What the run prints: lines of the program, and the help text of
    [QCommandLineParser::showHelp], which is Qt's. *)
Inductive Printed : Type :=
  | Console (line : Line)
  | HelpText.

(** [main] after the command line is parsed: the exit code, the file
    system and what was printed.  [showHelp(1)] leaves the program with
    exit code 1. *)
Definition main (cl : CommandLine) (w : World) : nat * World * list Printed :=
  let argsList := positionalArguments cl in
  if decide (argsList = []) then
    (1, w, [Console (Err "NGROM ERROR: No files specified.")])
  else
    let checkOptString := checks_value cl in
    let checkOpt := parseFileCheckActionString checkOptString in
    if decide (checkOpt = UNSET) then
      (1, w, [Console (Err ("NGROM ERROR: Unrecognized checkOpt: "
                            +:+ checkOptString)); HelpText])
    else
      let fileCollideActionString := file_collision_value cl in
      let fileAction := parseFileCheckActionString fileCollideActionString in
      if decide (fileAction = UNSET) then
        (1, w, [Console (Err ("NGROM ERROR: Unrecognized fileAction: "
                              +:+ fileCollideActionString)); HelpText])
      else
        let '(stopped, con) :=
          if decide (checkOpt = SKIP) then
            (false, [Out "Skipping SMD format checks..."])
          else
            let '(rc, con) := checkFormats SMD w argsList in
            if rc then (false, con)
            else
              match checkOpt with
              | STOP =>
                  (true, con ++ [Out "NGROM stopping due to failed SMD format check on one or more files"])
              | WARN =>
                  (false, con ++ [Err "NGROM WARNING: one or more files failed SMD format check; continuing..."])
              | _ => (false, con)
              end in
        if stopped then (2, w, Console <$> con)
        else if info_isSet cl then
          (0, w, Console <$> (con ++ showInfoList w argsList))
        else
          let outdir := default "." (outdir_value cl) in
          let '(rc, w', con') := convertFiles argsList outdir fileAction w in
          if rc then (0, w', Console <$> (con ++ con'))
          else
            (2, w', Console <$> (con ++ con' ++
               [Out "NGROM stopping due to error writing an output file"])).

(** ** Specification-side vocabulary *)

(** The four bytes of the BIN marker, written out. *)
Definition SEGA_marker : list byte := ["S"; "E"; "G"; "A"]%byte.

(** Bytes 0x100..0x103 of a header region are the marker. *)
Definition has_SEGA (headerBytes : list byte) : Prop :=
  take 4 (drop 0x100 headerBytes) = SEGA_marker.

(** Bytes 8 and 9 of a header region are 0xAA and 0xBB. *)
Definition has_AABB (headerBytes : list byte) : Prop :=
  headerBytes !! 8 = Some xaa ∧ headerBytes !! 9 = Some xbb.

(** A header region matches the format [checkFormats] is asked to check.
    There is no check for [UNK_FMT]. *)
Definition matches_format (fmt : RomFormat) (headerBytes : list byte) : Prop :=
  match fmt with
  | BIN => has_SEGA headerBytes
  | SMD => has_AABB headerBytes ∧ ¬ has_SEGA headerBytes
  | UNK_FMT => False
  end.

(** The file opens for reading, yields at least 512 bytes, and its first
    512 bytes match the format. *)
Definition file_passes (fmt : RomFormat) (w : World) (filename : string)
  : Prop :=
  ∃ data, files w !! filename = Some data ∧ (filename ∉ denied w) ∧
          NUM_HEADER_BYTES ≤ length data ∧
          matches_format fmt (take NUM_HEADER_BYTES data).

(** The character [c] occurs in [s]. *)
Fixpoint has_char (c : ascii) (s : string) : bool :=
  match s with
  | "" => false
  | String a s' => bool_decide (a = c) || has_char c s'
  end.

(** [name] is [stem], a dot, and the extension [ext] (which has no dot). *)
Definition has_extension (name stem ext : string) : Prop :=
  name = stem +:+ "." +:+ ext ∧ has_char "." ext = false.

Definition RomFormat_name (fmt : RomFormat) : string :=
  match fmt with UNK_FMT => "UNK_FMT" | SMD => "SMD" | BIN => "BIN" end.

(** The BIN image of the data blocks of an SMD file: each of the
    [numBlocks] 16384-byte blocks of [blocks], decoded, in order. *)
Fixpoint decodeBlocks (numBlocks : nat) (blocks : list byte) : list byte :=
  match numBlocks with
  | O => []
  | S n =>
      decodeSMDBlock (memset0 NUM_SMD_BLOCK_BYTES)
        (take NUM_SMD_BLOCK_BYTES blocks)
      ++ decodeBlocks n (drop NUM_SMD_BLOCK_BYTES blocks)
  end.

(** [c] with [prefix] printed before everything it prints. *)
Definition with_console_prefix (prefix : list Line) (c : Ctl ConvState)
  : Ctl ConvState :=
  match c with
  | Next st => Next (mkConvState (conv_world st) (prefix ++ conv_console st))
  | Return b st =>
      Return b (mkConvState (conv_world st) (prefix ++ conv_console st))
  end.

Definition detected_as (fmt : RomFormat) (w : World) (filename : string)
  : Prop :=
  ∃ data, files w !! filename = Some data ∧ (filename ∉ denied w) ∧
          NUM_HEADER_BYTES ≤ length data ∧
          getLikelyFormat (take NUM_HEADER_BYTES data) = fmt.

(** The sixteen uppercase hexadecimal digits. *)
Definition hex_digits : string := "0123456789ABCDEF".

(** Two digits of [hex_digits] for one byte, most significant first. *)
Definition hex_of_byte (b : byte) : string :=
  let n := N.to_nat (Byte.to_N b) in
  String (default "?"%char (String.get (n / 16) hex_digits))
    (String (default "?"%char (String.get (n `mod` 16) hex_digits)) "").

(** An SMD file whose first block is incomplete, yet at least 512 bytes. *)
Definition truncated_SMD (w : World) (filename : string) : Prop :=
  ∃ data, files w !! filename = Some data ∧ (filename ∉ denied w) ∧
          NUM_HEADER_BYTES ≤ length data ∧
          getLikelyFormat (take NUM_HEADER_BYTES data) = SMD ∧
          NUM_HEADER_BYTES ≤ length (drop NUM_HEADER_BYTES data)
            < NUM_SMD_BLOCK_BYTES.

(** The input can be converted: it is present and opens, the output can be
    opened for writing, the size is a header plus at least one whole block,
    and the device has room for the blocks. *)
Definition convertible (w : World) (outdir filename : string) : Prop :=
  ∃ data,
    files w !! filename = Some data ∧
    (filename ∉ denied w) ∧ (outFileFullPath outdir filename ∉ denied w) ∧
    NUM_HEADER_BYTES + NUM_SMD_BLOCK_BYTES ≤ length data ∧
    (length data - NUM_HEADER_BYTES) `mod` NUM_SMD_BLOCK_BYTES = 0 ∧
    length data - NUM_HEADER_BYTES ≤ space w.

(** The words [parseFileCheckActionString] recognises. *)
Definition policy_words : list string := ["stop"; "warn"; "skip"].

(** ** Sample inputs *)

(** A 512-byte SMD container header: 0xAA at offset 8, 0xBB at offset 9. *)
Definition smd_header : list byte :=
  replicate 8 x00 ++ [xaa; xbb] ++ replicate 502 x00.

(** A truncated SMD file: the header and 9000 of the 16384 bytes of its
    block. *)
Definition truncated_smd_world : World :=
  mkWorld {[ "short.smd" :=
               smd_header ++ replicate 4500 "Z"%byte ++ replicate 4500 "Z"%byte ]}
          ∅ 0.

(** An SMD block: 8192 bytes 'a' (the odd plane), then 8192 bytes 'B' (the
    even plane). *)
Definition sample_block : list byte :=
  replicate HALF_BLOCK "a"%byte ++ replicate HALF_BLOCK "B"%byte.

(** A header region whose software type field is "GM". *)
Definition gm_header : list byte :=
  replicate 0x180 x00 ++ ["G"; "M"]%byte ++ replicate 126 x00.

(** An SMD file of just a header, and no other file. *)
Definition check_world : World :=
  mkWorld {[ "a.smd" := smd_header ]} ∅ 0.

(** A 500-byte input and a 16895-byte input, no output file yet. *)
Definition bad_size_world : World :=
  mkWorld {[ "tiny.smd" := replicate 500 x00;
             "odd.smd" := smd_header ++ replicate (NUM_SMD_BLOCK_BYTES - 1) x00 ]}
          ∅ 4096.

(** A 500-byte input whose output file already exists. *)
Definition collision_world : World :=
  mkWorld {[ "tiny.smd" := replicate 500 x00;
             "out/tiny.bin" := [x01; x02; x03] ]}
          ∅ 4096.

(** A one-block SMD file whose output file already exists. *)
Definition overwrite_world : World :=
  mkWorld {[ "game.smd" := smd_header ++ sample_block;
             "out/game.bin" := [x01; x02; x03] ]}
          ∅ NUM_SMD_BLOCK_BYTES.

(** An SMD block whose decoded bytes 0x100..0x103 are "SEGA". *)
Definition sega_block : list byte :=
  replicate 0x80 x00 ++ ["E"; "A"]%byte ++ replicate (HALF_BLOCK - 0x82) x00
  ++ replicate 0x80 x00 ++ ["S"; "G"]%byte
  ++ replicate (HALF_BLOCK - 0x82) x00.

(** A one-block SMD file of a ROM with the "SEGA" marker. *)
Definition sega_world : World :=
  mkWorld {[ "sonic.smd" := smd_header ++ sega_block ]} ∅
          NUM_SMD_BLOCK_BYTES.

(** A command line with the default policies and one missing file. *)
Definition sample_command_line : CommandLine :=
  mkCommandLine ["missing.smd"] "stop" "skip" false None.

(** A BIN image of just a header region, with the marker. *)
Definition bin_world : World :=
  mkWorld {[ "sonic.bin" :=
               replicate 0x100 x00 ++ ["S"; "E"; "G"; "A"]%byte
               ++ replicate 252 x00 ]} ∅ 0.

(** ** Facts about the constants *)

Lemma HALF_BLOCK_Z : Z.of_nat HALF_BLOCK = 8192%Z.
Proof. vm_compute. reflexivity. Qed.

Lemma NUM_SMD_BLOCK_BYTES_Z : Z.of_nat NUM_SMD_BLOCK_BYTES = 16384%Z.
Proof. vm_compute. reflexivity. Qed.

Lemma block_is_two_halves : NUM_SMD_BLOCK_BYTES = 2 * HALF_BLOCK.
Proof. pose proof HALF_BLOCK_Z. pose proof NUM_SMD_BLOCK_BYTES_Z. lia. Qed.

#[global] Opaque HALF_BLOCK NUM_SMD_BLOCK_BYTES.

(** ** The block codec, position by position *)

Section BlockCodec.

Implicit Types (src dest : list byte) (n i j k : nat).

Lemma decode_loop_length n i e o src dest :
  length (decode_loop n i e o src dest) = length dest.
Proof.
  revert i e o dest.
  induction n as [|n IH]; intros i e o dest; simpl; [done|].
  by rewrite IH, !length_insert.
Qed.

(** Positions below [2 * i] were written by earlier iterations and are not
    touched again. *)
Lemma decode_loop_below n i e o src dest k :
  e = 2 * i → o = 2 * i + 1 → k < 2 * i →
  decode_loop n i e o src dest !! k = dest !! k.
Proof.
  revert i e o dest.
  induction n as [|n IH]; intros i e o dest -> -> Hk; cbn [decode_loop];
    [done|].
  rewrite (IH (S i)) by lia.
  rewrite !list_lookup_insert_ne by lia. done.
Qed.

Lemma decode_loop_odd n i e o src dest j :
  e = 2 * i → o = 2 * i + 1 →
  i ≤ j < i + n → 2 * j + 1 < length dest →
  decode_loop n i e o src dest !! (2 * j + 1) = Some (src !!! j).
Proof.
  revert i e o dest.
  induction n as [|n IH]; intros i e o dest -> -> Hj Hlen;
    cbn [decode_loop]; [lia|].
  destruct (decide (j = i)) as [->|Hne].
  - rewrite (decode_loop_below _ (S i)) by lia.
    rewrite list_lookup_insert_ne by lia.
    by rewrite list_lookup_insert_eq by lia.
  - rewrite (IH (S i)); [done|lia|lia|lia|by rewrite !length_insert].
Qed.

Lemma decode_loop_even n i e o src dest j :
  e = 2 * i → o = 2 * i + 1 →
  i ≤ j < i + n → 2 * j < length dest →
  decode_loop n i e o src dest !! (2 * j) = Some (src !!! (j + HALF_BLOCK)).
Proof.
  revert i e o dest.
  induction n as [|n IH]; intros i e o dest -> -> Hj Hlen;
    cbn [decode_loop]; [lia|].
  destruct (decide (j = i)) as [->|Hne].
  - rewrite (decode_loop_below _ (S i)) by lia.
    by rewrite list_lookup_insert_eq by (rewrite length_insert; lia).
  - rewrite (IH (S i)); [done|lia|lia|lia|by rewrite !length_insert].
Qed.

Lemma decodeSMDBlock_length dest src :
  length (decodeSMDBlock dest src) = length dest.
Proof. unfold decodeSMDBlock. by rewrite decode_loop_length. Qed.

Lemma decodeSMDBlock_odd dest src j :
  j < HALF_BLOCK → length dest = NUM_SMD_BLOCK_BYTES →
  decodeSMDBlock dest src !! (2 * j + 1) = Some (src !!! j).
Proof.
  intros Hj Hlen. rewrite block_is_two_halves in Hlen.
  unfold decodeSMDBlock. rewrite (decode_loop_odd _ 0); [done|lia..].
Qed.

Lemma decodeSMDBlock_even dest src j :
  j < HALF_BLOCK → length dest = NUM_SMD_BLOCK_BYTES →
  decodeSMDBlock dest src !! (2 * j) = Some (src !!! (j + HALF_BLOCK)).
Proof.
  intros Hj Hlen. rewrite block_is_two_halves in Hlen.
  unfold decodeSMDBlock. rewrite (decode_loop_even _ 0); [done|lia..].
Qed.

(** The decoded block does not depend on what the destination held. *)
Lemma decodeSMDBlock_dest_irrelevant dest dest' src :
  length dest = NUM_SMD_BLOCK_BYTES → length dest' = NUM_SMD_BLOCK_BYTES →
  decodeSMDBlock dest src = decodeSMDBlock dest' src.
Proof.
  intros Hd Hd'. apply list_eq. intros k.
  destruct (decide (k < NUM_SMD_BLOCK_BYTES)) as [Hk|Hk].
  - rewrite block_is_two_halves in Hk.
    destruct (Nat.Even_or_Odd k) as [[j ->]|[j ->]].
    + rewrite !decodeSMDBlock_even by (done || lia). done.
    + rewrite !decodeSMDBlock_odd by (done || lia). done.
  - rewrite !lookup_ge_None_2; [done| |];
      rewrite decodeSMDBlock_length; lia.
Qed.

Lemma encodeSMDBlock_length b : length (encodeSMDBlock b) = NUM_SMD_BLOCK_BYTES.
Proof.
  unfold encodeSMDBlock.
  rewrite length_app, !length_fmap, !length_seq, block_is_two_halves. lia.
Qed.

Lemma encodeSMDBlock_first b j :
  j < HALF_BLOCK → encodeSMDBlock b !!! j = b !!! (2 * j + 1).
Proof.
  intros Hj. unfold encodeSMDBlock.
  apply list_lookup_total_correct.
  rewrite lookup_app_l by (rewrite length_fmap, length_seq; lia).
  rewrite list_lookup_fmap, lookup_seq_lt by lia. done.
Qed.

Lemma encodeSMDBlock_second b j :
  j < HALF_BLOCK → encodeSMDBlock b !!! (j + HALF_BLOCK) = b !!! (2 * j).
Proof.
  intros Hj. unfold encodeSMDBlock.
  apply list_lookup_total_correct.
  rewrite lookup_app_r by (rewrite length_fmap, length_seq; lia).
  rewrite length_fmap, length_seq.
  replace (j + HALF_BLOCK - HALF_BLOCK) with j by lia.
  rewrite list_lookup_fmap, lookup_seq_lt by lia. done.
Qed.

End BlockCodec.

(** ** Theorems: block codec *)

(** C1: for every 16384-byte input block (and 16384-byte destination
    buffer), [decodeSMDBlock] produces a 16384-byte output where, for every
    [i] in [0, 8192), the output byte at position [2i+1] is the input byte at
    position [i] and the output byte at position [2i] is the input byte at
    position [i+8192]. *)
Theorem decodeSMDBlock_interleaves (dest src : list byte) :
  length src = NUM_SMD_BLOCK_BYTES →
  length dest = NUM_SMD_BLOCK_BYTES →
  length (decodeSMDBlock dest src) = NUM_SMD_BLOCK_BYTES ∧
  ∀ i, i < HALF_BLOCK →
    decodeSMDBlock dest src !! (2 * i + 1) = src !! i ∧
    decodeSMDBlock dest src !! (2 * i) = src !! (i + HALF_BLOCK).
Proof.
  intros Hsrc Hdest. split; [by rewrite decodeSMDBlock_length|].
  intros i Hi. rewrite block_is_two_halves in Hsrc.
  rewrite decodeSMDBlock_odd, decodeSMDBlock_even by done.
  split; symmetry; apply list_lookup_lookup_total_lt; lia.
Qed.

Lemma decodeSMDBlock_interleaves_witness :
  length (decodeSMDBlock (memset0 NUM_SMD_BLOCK_BYTES) sample_block)
  = NUM_SMD_BLOCK_BYTES ∧
  ∀ i, i < HALF_BLOCK →
    decodeSMDBlock (memset0 NUM_SMD_BLOCK_BYTES) sample_block !! (2 * i + 1)
    = sample_block !! i ∧
    decodeSMDBlock (memset0 NUM_SMD_BLOCK_BYTES) sample_block !! (2 * i)
    = sample_block !! (i + HALF_BLOCK).
Proof.
  apply (decodeSMDBlock_interleaves (memset0 NUM_SMD_BLOCK_BYTES) sample_block);
    vm_compute; reflexivity.
Defined.

(** C2: the de-interleave transform is a bijection on 16384-byte blocks:
    encoding a block BIN to SMD and then decoding it gives the block back,
    and decoding an SMD block and then encoding it gives the block back. *)
Theorem decode_encode_roundtrip (dest block : list byte) :
  length block = NUM_SMD_BLOCK_BYTES →
  length dest = NUM_SMD_BLOCK_BYTES →
  decodeSMDBlock dest (encodeSMDBlock block) = block ∧
  encodeSMDBlock (decodeSMDBlock dest block) = block.
Proof.
  intros Hb Hd. split.
  - apply list_eq. intros k.
    destruct (decide (k < NUM_SMD_BLOCK_BYTES)) as [Hk|Hk].
    + rewrite block_is_two_halves in Hk, Hb.
      destruct (Nat.Even_or_Odd k) as [[j ->]|[j ->]].
      * rewrite decodeSMDBlock_even, encodeSMDBlock_second by (done || lia).
        symmetry. apply list_lookup_lookup_total_lt. lia.
      * rewrite decodeSMDBlock_odd, encodeSMDBlock_first by (done || lia).
        symmetry. apply list_lookup_lookup_total_lt. lia.
    + rewrite !lookup_ge_None_2; [done|lia|].
      rewrite decodeSMDBlock_length. lia.
  - apply list_eq. intros k.
    pose proof (encodeSMDBlock_length (decodeSMDBlock dest block)) as Hlen.
    destruct (decide (k < NUM_SMD_BLOCK_BYTES)) as [Hk|Hk].
    + rewrite (list_lookup_lookup_total_lt _ k) by lia.
      rewrite (list_lookup_lookup_total_lt block k) by lia.
      f_equal. rewrite block_is_two_halves in Hk, Hb.
      destruct (decide (k < HALF_BLOCK)) as [Hlt|Hge].
      * rewrite encodeSMDBlock_first by done.
        apply list_lookup_total_correct. by apply decodeSMDBlock_odd.
      * replace k with ((k - HALF_BLOCK) + HALF_BLOCK) at 1 by lia.
        rewrite encodeSMDBlock_second by lia.
        apply list_lookup_total_correct.
        rewrite decodeSMDBlock_even; [|lia|exact Hd].
        f_equal. f_equal. lia.
    + rewrite !lookup_ge_None_2; [done|lia|lia].
Qed.

Lemma decode_encode_roundtrip_witness :
  decodeSMDBlock (memset0 NUM_SMD_BLOCK_BYTES) (encodeSMDBlock sample_block)
  = sample_block ∧
  encodeSMDBlock (decodeSMDBlock (memset0 NUM_SMD_BLOCK_BYTES) sample_block)
  = sample_block.
Proof.
  apply (decode_encode_roundtrip (memset0 NUM_SMD_BLOCK_BYTES) sample_block);
    vm_compute; reflexivity.
Defined.

(** ** Format detector *)

Section FormatDetector.

Lemma memcmp_0_iff (a b : list byte) (n : nat) :
  n ≤ length a → n ≤ length b →
  0%Z = memcmp a b n ↔ take n a = take n b.
Proof.
  revert a b. induction n as [|n IH]; intros a b Ha Hb.
  - by rewrite !take_0.
  - destruct a as [|x a]; [simpl in Ha; lia|].
    destruct b as [|y b]; [simpl in Hb; lia|].
    cbn [memcmp take]. change ((x :: a) !!! 0) with x.
    change ((y :: b) !!! 0) with y. cbn [drop]. rewrite !drop_0.
    simpl in Ha, Hb.
    destruct (decide (x = y)) as [->|Hne].
    + rewrite IH by lia. split; [by intros ->|by intros [= ->]].
    + split; [|by intros [= ? _]].
      by destruct (Byte.to_N x <? Byte.to_N y)%N.
Qed.

Lemma SEGA_is_marker : SEGA = SEGA_marker.
Proof. reflexivity. Qed.

(** The [memcmp] test of the program is the marker test. *)
Lemma memcmp_SEGA_iff (headerBytes : list byte) :
  0x100 + 4 ≤ length headerBytes →
  0%Z = memcmp (drop 0x100 headerBytes) SEGA 4 ↔ has_SEGA headerBytes.
Proof.
  intros Hlen. unfold has_SEGA.
  rewrite memcmp_0_iff; [done| |by vm_compute; lia].
  rewrite length_drop. lia.
Qed.

Lemma lookup_total_eq_iff (l : list byte) (i : nat) (b : byte) :
  i < length l → l !!! i = b ↔ l !! i = Some b.
Proof.
  intros Hi. rewrite (list_lookup_lookup_total_lt l i) by done.
  split; [by intros ->|by intros [= ->]].
Qed.

End FormatDetector.

(** C3: for every 512-byte header region, [getLikelyFormat] returns BIN if
    bytes 0x100..0x103 are "SEGA" (whatever bytes 8 and 9 are); otherwise
    SMD if byte 8 is 0xAA and byte 9 is 0xBB; otherwise UNK_FMT. *)
Theorem getLikelyFormat_spec (headerBytes : list byte) :
  length headerBytes = NUM_HEADER_BYTES →
  (has_SEGA headerBytes → getLikelyFormat headerBytes = BIN) ∧
  (¬ has_SEGA headerBytes → has_AABB headerBytes →
     getLikelyFormat headerBytes = SMD) ∧
  (¬ has_SEGA headerBytes → ¬ has_AABB headerBytes →
     getLikelyFormat headerBytes = UNK_FMT).
Proof.
  intros Hlen. unfold NUM_HEADER_BYTES in Hlen.
  assert (0x100 + 4 ≤ length headerBytes) as Hm by (rewrite Hlen; vm_compute; lia).
  unfold getLikelyFormat, has_AABB.
  rewrite <- !lookup_total_eq_iff by lia.
  repeat split; intros; repeat case_decide;
    rewrite ?memcmp_SEGA_iff in * by done; tauto.
Qed.

Lemma getLikelyFormat_spec_witness : getLikelyFormat smd_header = SMD.
Proof.
  refine (proj1 (proj2 (getLikelyFormat_spec smd_header _)) _ _).
  - reflexivity.
  - intros H. vm_compute in H. discriminate.
  - split; reflexivity.
Defined.

(** ** Format checker *)

Section FormatChecker.

Context (w : World).

(** Reading the first [n] bytes of a file that has them fills the buffer
    with them. *)
Lemma fread_start_full (buf data : list byte) (path : string) (n : nat) :
  files w !! path = Some data → length buf = n → n ≤ length data →
  fread w buf n (mkRFILE path 0) = (n, take n data, mkRFILE path n).
Proof.
  intros Hf Hbuf Hn. unfold fread, file_bytes. cbn [r_path r_pos].
  rewrite Hf. cbn [default from_option id]. rewrite drop_0.
  rewrite length_take, Nat.min_l by done.
  rewrite drop_ge by lia. by rewrite app_nil_r.
Qed.

Lemma fread_start_short (buf data : list byte) (path : string) (n : nat) :
  files w !! path = Some data → length data < n →
  (fread w buf n (mkRFILE path 0)).1.1 = length data.
Proof.
  intros Hf Hn. unfold fread, file_bytes. cbn [r_path r_pos].
  rewrite Hf. cbn [default from_option id fst].
  rewrite drop_0, length_take. lia.
Qed.

Lemma fopen_r_inr (path : string) (f : RFILE) :
  fopen_r w path = inr f ↔
  f = mkRFILE path 0 ∧ is_Some (files w !! path) ∧ path ∉ denied w.
Proof.
  unfold fopen_r. destruct (files w !! path) as [data|] eqn:Hf.
  - case_decide; split.
    + done.
    + by intros (_ & _ & ?).
    + intros [= <-]. eauto.
    + by intros (-> & _ & _).
  - split; [done|]. by intros (_ & [? ?] & _).
Qed.

Lemma header_lookup_total (data : list byte) (i : nat) (b : byte) :
  i < NUM_HEADER_BYTES → NUM_HEADER_BYTES ≤ length data →
  take NUM_HEADER_BYTES data !!! i = b ↔
  take NUM_HEADER_BYTES data !! i = Some b.
Proof.
  intros Hi Hlen. apply lookup_total_eq_iff. rewrite length_take. lia.
Qed.

(** One iteration of the loop, for a format that has a check: the file's
    verdict is and-ed into [retval] and two lines are printed, whatever
    the state the iteration starts from. *)
Lemma checkFormats_body_Next (fmt : RomFormat) (filename : string) :
  fmt ≠ UNK_FMT →
  ∃ (verdict : bool) (outcome : Line),
    (verdict = true ↔ file_passes fmt w filename) ∧
    ∀ st, ∃ tmpBytes,
      checkFormats_body fmt w filename st =
      Next (mkCheckState (chk_retval st && verdict) tmpBytes
              (chk_console st ++
               [Out ("Checking file for " +:+ RomFormat_name fmt
                     +:+ " format: " +:+ filename); outcome])).
Proof.
  intros Hfmt. unfold file_passes.
  destruct (fopen_r w filename) as [e|f] eqn:Hopen.
  { exists false, (Err ("  NGROM ERROR: Failed to open file... "
                        +:+ strerror e)).
    split.
    - split; [done|]. intros (data & Hf & Hd & _).
      assert (fopen_r w filename = inr (mkRFILE filename 0)) as Hr
        by (apply fopen_r_inr; eauto).
      congruence.
    - intros st. exists (chk_tmpBytes st).
      destruct fmt; [done| |]; unfold checkFormats_body; rewrite Hopen;
        rewrite andb_false_r, <- app_assoc; done. }
  apply fopen_r_inr in Hopen as (-> & [data Hf] & Hden).
  assert (fopen_r w filename = inr (mkRFILE filename 0)) as Hopen
    by (apply fopen_r_inr; eauto).
  destruct (decide (NUM_HEADER_BYTES ≤ length data)) as [Hlen|Hlen].
  2:{ exists false, (Err "  NGROM ERROR: Incomplete read...").
      split.
      - split; [done|]. intros (data' & Hf' & _ & Hlen' & _).
        rewrite Hf in Hf'. injection Hf' as <-. lia.
      - intros st.
        pose proof (fread_start_short (memset0 NUM_HEADER_BYTES) data
                      filename NUM_HEADER_BYTES Hf ltac:(lia)) as Hshort.
        destruct (fread w (memset0 NUM_HEADER_BYTES) NUM_HEADER_BYTES
                    (mkRFILE filename 0)) as [[k buf] f'] eqn:Hread.
        cbn [fst] in Hshort. subst k. exists buf.
        destruct fmt; [done| |]; unfold checkFormats_body;
          rewrite Hopen, Hread;
          (destruct (Nat.ltb_spec (length data) NUM_HEADER_BYTES); [|lia]);
          rewrite andb_false_r, <- app_assoc; done. }
  pose proof (fread_start_full (memset0 NUM_HEADER_BYTES) data filename
                NUM_HEADER_BYTES Hf (length_replicate _ _) Hlen) as Hread.
  assert (0x100 + 4 ≤ length (take NUM_HEADER_BYTES data)) as Hm.
  { rewrite length_take. unfold NUM_HEADER_BYTES in *.
    change (0x100 + 4) with 260. lia. }
  pose proof (memcmp_SEGA_iff _ Hm) as Hsega.
  pose proof (header_lookup_total data 8 xaa
                ltac:(unfold NUM_HEADER_BYTES; lia) Hlen) as H8.
  pose proof (header_lookup_total data 9 xbb
                ltac:(unfold NUM_HEADER_BYTES; lia) Hlen) as H9.
  set (hdr := take NUM_HEADER_BYTES data) in *.
  assert ((∃ data', files w !! filename = Some data' ∧
             (filename ∉ denied w) ∧ NUM_HEADER_BYTES ≤ length data' ∧
             matches_format fmt (take NUM_HEADER_BYTES data')) ↔
           matches_format fmt hdr) as Hpass.
  { split.
    - intros (data' & Hf' & _ & _ & Hmatch).
      rewrite Hf in Hf'. by injection Hf' as <-.
    - intros Hmatch. exists data. eauto. }
  setoid_rewrite Hpass. clear Hpass.
  destruct fmt; [done| |].
  - (* SMD *)
    destruct (decide (hdr !!! 8 ≠ xaa ∨ hdr !!! 9 ≠ xbb)) as [Hmark|Hmark].
    { exists false, (Out "  ...FAILED!"). split.
      - split; [done|]. unfold matches_format, has_AABB.
        rewrite <- H8, <- H9. tauto.
      - intros st. exists hdr. unfold checkFormats_body.
        rewrite Hopen, Hread, Nat.ltb_irrefl.
        rewrite decide_True by done.
        by rewrite andb_false_r, <- app_assoc. }
    destruct (decide (0%Z = memcmp (drop 0x100 hdr) SEGA 4)) as [Hs|Hs].
    { exists false, (Out "  ...FAILED! (appears to be BIN format)"). split.
      - split; [done|]. unfold matches_format. tauto.
      - intros st. exists hdr. unfold checkFormats_body.
        rewrite Hopen, Hread, Nat.ltb_irrefl.
        rewrite decide_False, decide_True by done.
        by rewrite andb_false_r, <- app_assoc. }
    exists true, (Out "  ...GOOD!"). split.
    + split; [|done]. intros _. unfold matches_format, has_AABB.
      rewrite <- H8, <- H9, <- Hsega.
      destruct (decide (hdr !!! 8 = xaa)), (decide (hdr !!! 9 = xbb)); tauto.
    + intros st. exists hdr. unfold checkFormats_body.
      rewrite Hopen, Hread, Nat.ltb_irrefl.
      rewrite !decide_False by done.
      by rewrite andb_true_r, <- app_assoc.
  - (* BIN *)
    destruct (decide (0%Z = memcmp (drop 0x100 hdr) SEGA 4)) as [Hs|Hs].
    + exists true, (Out "  ...GOOD!"). split.
      * split; [|done]. intros _. unfold matches_format. tauto.
      * intros st. exists hdr. unfold checkFormats_body.
        rewrite Hopen, Hread, Nat.ltb_irrefl.
        rewrite decide_True by done.
        by rewrite andb_true_r, <- app_assoc.
    + exists false, (Out "  ...FAILED!"). split.
      * split; [done|]. unfold matches_format. tauto.
      * intros st. exists hdr. unfold checkFormats_body.
        rewrite Hopen, Hread, Nat.ltb_irrefl.
        rewrite decide_False by done.
        by rewrite andb_false_r, <- app_assoc.
Qed.

(** The whole loop: every file contributes its verdict and its two
    lines. *)
Lemma checkFormats_loop (fmt : RomFormat) (filenameList : list string)
    (st : CheckState) :
  fmt ≠ UNK_FMT →
  ∃ st', for_each (checkFormats_body fmt w) filenameList st = Next st' ∧
    (chk_retval st' = true ↔
     chk_retval st = true ∧ Forall (file_passes fmt w) filenameList) ∧
    chk_console st' =
    chk_console st ++
    flat_map (λ f, (checkFormats fmt w [f]).2) filenameList.
Proof.
  intros Hfmt. revert st.
  induction filenameList as [|f l IH]; intros st; cbn [for_each flat_map].
  - exists st. rewrite app_nil_r. split; [done|]. split; [|done].
    split; [by intros ->|by intros [? _]].
  - destruct (checkFormats_body_Next fmt f Hfmt)
      as (verdict & outcome & Hverdict & Hbody).
    destruct (Hbody st) as [tmp Hst]. rewrite Hst.
    destruct (IH (mkCheckState (chk_retval st && verdict) tmp
                    (chk_console st ++
                     [Out ("Checking file for " +:+ RomFormat_name fmt
                           +:+ " format: " +:+ f); outcome])))
      as (st' & Hloop & Hret & Hcon).
    exists st'. split; [done|]. cbn [chk_retval chk_console] in *.
    split.
    + rewrite Hret, andb_true_iff, Hverdict, Forall_cons. tauto.
    + rewrite Hcon, <- app_assoc. f_equal. f_equal.
      unfold checkFormats. cbn [for_each].
      destruct (Hbody (mkCheckState true (memset0 NUM_HEADER_BYTES) []))
        as [tmp0 ->].
      done.
Qed.

End FormatChecker.

(** C7: for the formats it implements (BIN and SMD), [checkFormats] returns
    true iff every file of the list opens, yields at least 512 header bytes
    and matches the expected format (for SMD: byte 8 is 0xAA, byte 9 is 0xBB
    and bytes 0x100..0x103 are not "SEGA"); and every file of the list is
    checked and reported, whatever the outcome of the files before it. *)
Theorem checkFormats_spec (fmt : RomFormat) (w : World)
    (filenameList : list string) :
  fmt ≠ UNK_FMT →
  ((checkFormats fmt w filenameList).1 = true ↔
   Forall (file_passes fmt w) filenameList) ∧
  (checkFormats fmt w filenameList).2 =
    flat_map (λ f, (checkFormats fmt w [f]).2) filenameList ∧
  (∀ f, ∃ outcome,
     (checkFormats fmt w [f]).2 =
     [Out ("Checking file for " +:+ RomFormat_name fmt +:+ " format: " +:+ f);
      outcome]).
Proof.
  intros Hfmt.
  destruct (checkFormats_loop w fmt filenameList
              (mkCheckState true (memset0 NUM_HEADER_BYTES) []) Hfmt)
    as (st' & Hloop & Hret & Hcon).
  unfold checkFormats at 1 2. rewrite Hloop. cbn [fst snd].
  split; [|split].
  - rewrite Hret. cbn [chk_retval]. tauto.
  - by rewrite Hcon.
  - intros f.
    destruct (checkFormats_body_Next w fmt f Hfmt)
      as (verdict & outcome & _ & Hbody).
    exists outcome. unfold checkFormats. cbn [for_each].
    destruct (Hbody (mkCheckState true (memset0 NUM_HEADER_BYTES) []))
      as [tmp0 ->].
    done.
Qed.

Lemma checkFormats_spec_witness :
  (checkFormats SMD check_world ["a.smd"; "missing.smd"]).1 = true ↔
  Forall (file_passes SMD check_world) ["a.smd"; "missing.smd"].
Proof.
  refine (proj1 (checkFormats_spec SMD check_world
                   ["a.smd"; "missing.smd"] _)).
  discriminate.
Defined.

(** C10: asked for a format that is neither BIN nor SMD, [checkFormats]
    returns false at the first file, having printed only its error line: the
    result is the same for every file system and for every list of files
    after the first, none of which is opened or checked.  For BIN and SMD
    the loop never leaves early: it runs to the end of the list. *)
Theorem checkFormats_unknown_returns_at_once (w : World) (filename : string)
    (rest : list string) :
  checkFormats UNK_FMT w (filename :: rest) =
  (false,
   [Err "NGROM ERROR: checkFormats not implemented for specified fmt: 0"]) ∧
  ∀ fmt st, fmt ≠ UNK_FMT →
    ∃ st', for_each (checkFormats_body fmt w) (filename :: rest) st = Next st'.
Proof.
  split; [reflexivity|].
  intros fmt st Hfmt.
  destruct (checkFormats_loop w fmt (filename :: rest) st Hfmt)
    as (st' & Hloop & _).
  by exists st'.
Qed.

(** ** Output file names *)

Section Strings.

Implicit Types (s t : string) (c : ascii).

Lemma append_cons a s t : String a s +:+ t = String a (s +:+ t).
Proof. reflexivity. Qed.

Lemma append_nil_l s : "" +:+ s = s.
Proof. reflexivity. Qed.

Lemma append_nil_r s : s +:+ "" = s.
Proof.
  induction s as [|a s IH]; [done|]. by rewrite append_cons, IH.
Qed.

Lemma append_assoc s t u : (s +:+ t) +:+ u = s +:+ (t +:+ u).
Proof.
  induction s as [|a s IH]; [done|]. by rewrite !append_cons, IH.
Qed.

Lemma length_append s t :
  String.length (s +:+ t) = String.length s + String.length t.
Proof.
  induction s as [|a s IH]; [done|]. rewrite append_cons. cbn.
  by rewrite IH.
Qed.

Lemma str_take_append s t : str_take (String.length s) (s +:+ t) = s.
Proof.
  induction s as [|a s IH]; [by destruct t|].
  rewrite append_cons. cbn. by rewrite IH.
Qed.

Lemma str_drop_append s t : str_drop (String.length s) (s +:+ t) = t.
Proof.
  induction s as [|a s IH]; [by destruct t|]. by rewrite append_cons.
Qed.

Lemma toLower_length s : String.length (toLower s) = String.length s.
Proof. induction s as [|a s IH]; cbn; [done|by rewrite IH]. Qed.

Lemma has_char_append c s t :
  has_char c (s +:+ t) = has_char c s || has_char c t.
Proof.
  induction s as [|a s IH]; [done|]. rewrite append_cons. cbn.
  by rewrite IH, orb_assoc.
Qed.

Lemma after_last_None c s : after_last c s = None ↔ has_char c s = false.
Proof.
  induction s as [|a s IH]; cbn; [done|].
  destruct (after_last c s) as [t|].
  - split; [done|]. intros [_ H]%orb_false_iff. apply IH in H. done.
  - destruct IH as [IH _]. rewrite IH by done.
    rewrite orb_false_r. case_decide.
    + by rewrite bool_decide_eq_true_2.
    + by rewrite bool_decide_eq_false_2.
Qed.

Lemma after_last_Some c s t :
  after_last c s = Some t ↔
  ∃ pre, s = pre +:+ String c t ∧ has_char c t = false.
Proof.
  revert t. induction s as [|a s IH]; intros t; cbn.
  - split; [done|]. intros (pre & H & _). by destruct pre.
  - destruct (after_last c s) as [t'|] eqn:Hs.
    + split.
      * intros [= ->]. destruct (proj1 (IH t) eq_refl) as (pre & -> & Ht).
        exists (String a pre). done.
      * intros (pre & Heq & Ht). destruct pre as [|a' pre].
        -- rewrite append_nil_l in Heq. injection Heq as -> ->.
           apply after_last_None in Ht. congruence.
        -- rewrite append_cons in Heq. injection Heq as -> Heq.
           f_equal. assert (Some t' = Some t) as [= ->]; [|done].
           apply IH. eauto.
    + apply after_last_None in Hs. split.
      * case_decide as Hac; [|done]. intros [= ->]. subst a.
        exists "". done.
      * intros (pre & Heq & Ht). destruct pre as [|a' pre].
        -- rewrite append_nil_l in Heq. injection Heq as -> ->.
           by rewrite decide_True.
        -- rewrite append_cons in Heq. injection Heq as -> ->.
           rewrite has_char_append in Hs. cbn in Hs.
           rewrite bool_decide_eq_true_2 in Hs by done.
           by rewrite orb_true_r in Hs.
Qed.

Lemma toLower_smd_length s : toLower s = "smd" → String.length s = 3.
Proof. intros H. by rewrite <- toLower_length, H. Qed.

(** The file name of a path that ends in ['/'] and a name without ['/']
    is that name. *)
Lemma QFileInfo_fileName_join dir name :
  has_char "/" name = false →
  QFileInfo_fileName (dir +:+ "/" +:+ name) = name.
Proof.
  intros Hname. unfold QFileInfo_fileName.
  assert (after_last "/" (dir +:+ "/" +:+ name) = Some name) as ->; [|done].
  apply after_last_Some. eauto.
Qed.

Lemma QFileInfo_fileName_no_slash path :
  has_char "/" (QFileInfo_fileName path) = false.
Proof.
  unfold QFileInfo_fileName.
  destruct (after_last "/" path) as [t|] eqn:H; cbn.
  - by apply after_last_Some in H as (_ & _ & ?).
  - by apply after_last_None.
Qed.

(** A name with an "smd" extension: the extension is replaced. *)
Lemma outFilename_smd filename stem ext :
  has_extension (QFileInfo_fileName filename) stem ext →
  toLower ext = "smd" →
  outFilename filename = stem +:+ ".bin".
Proof.
  intros [Hname Hext] Hlow. unfold outFilename, QFileInfo_suffix.
  assert (after_last "." (QFileInfo_fileName filename) = Some ext) as ->.
  { apply after_last_Some. exists stem. by rewrite Hname. }
  cbn [default from_option id]. rewrite decide_True by done.
  pose proof (toLower_smd_length _ Hlow) as Hlen.
  rewrite Hname. unfold QString_replace.
  change (stem +:+ "." +:+ ext) with (stem +:+ ("." +:+ ext)).
  rewrite <- (append_assoc stem "." ext).
  rewrite !length_append, Hlen.
  change (String.length ".") with 1.
  replace (String.length stem + 1 + 3 - 3)
    with (String.length (stem +:+ ".")) by (rewrite length_append; cbn; lia).
  destruct (Nat.ltb_spec (String.length stem + 1 + 3)
              (String.length (stem +:+ "."))) as [Hlt|_].
  { rewrite length_append in Hlt. cbn in Hlt. lia. }
  rewrite str_take_append.
  replace (String.length (stem +:+ ".") + 3)
    with (String.length ((stem +:+ ".") +:+ ext))
    by (rewrite !length_append; cbn; lia).
  rewrite <- (append_nil_r ((stem +:+ ".") +:+ ext)) at 2.
  rewrite str_drop_append.
  by rewrite append_assoc.
Qed.

(** Any other name: [".bin"] is appended. *)
Lemma outFilename_other filename :
  (¬ ∃ stem ext, has_extension (QFileInfo_fileName filename) stem ext ∧
                 toLower ext = "smd") →
  outFilename filename = QFileInfo_fileName filename +:+ ".bin".
Proof.
  intros Hno. unfold outFilename, QFileInfo_suffix.
  case_decide as Hsmd; [|done]. exfalso. apply Hno.
  destruct (after_last "." (QFileInfo_fileName filename)) as [ext|] eqn:Hs;
    [|done].
  apply after_last_Some in Hs as (stem & Hname & Hext).
  exists stem, ext. by repeat split.
Qed.

End Strings.

(** C8: for every input path, the output path is the output directory, a
    ['/'], and the input's file name with its extension replaced by "bin"
    when the extension is "smd" in any letter case, or with ".bin" appended
    to the whole file name otherwise; game.smd gives game.bin and game.dat
    gives game.dat.bin. *)
Theorem outFileFullPath_spec (outdir filename : string) :
  let name := QFileInfo_fileName filename in
  (∀ stem ext, has_extension name stem ext → toLower ext = "smd" →
     outFileFullPath outdir filename = outdir +:+ "/" +:+ stem +:+ ".bin") ∧
  ((¬ ∃ stem ext, has_extension name stem ext ∧ toLower ext = "smd") →
     outFileFullPath outdir filename = outdir +:+ "/" +:+ name +:+ ".bin") ∧
  outFileFullPath "out" "roms/game.smd" = "out/game.bin" ∧
  outFileFullPath "out" "roms/Game.SmD" = "out/Game.bin" ∧
  outFileFullPath "out" "roms/game.dat" = "out/game.dat.bin".
Proof.
  intros name. unfold outFileFullPath. repeat split.
  - intros stem ext Hext Hlow. by rewrite (outFilename_smd _ stem ext).
  - intros Hno. by rewrite outFilename_other.
Qed.

(** ** Info reporter *)

(** C9: the "Software type" line of the report shows "Game" when bytes
    0x180..0x181 of the header region are "GM", "Educational" when they are
    "Al", and the two bytes as characters otherwise. *)
Theorem softwareType_rendering (tmpHeaderBytes : list byte) (b0 b1 : byte) :
  tmpHeaderBytes !! 0x180 = Some b0 →
  tmpHeaderBytes !! 0x181 = Some b1 →
  ∃ text,
    showHeaderFields tmpHeaderBytes !! 4 =
      Some (Out ("             Software type: " +:+ text)) ∧
    (b0 = "G"%byte ∧ b1 = "M"%byte → text = "Game") ∧
    (b0 = "A"%byte ∧ b1 = "l"%byte → text = "Educational") ∧
    (¬ (b0 = "G"%byte ∧ b1 = "M"%byte) → ¬ (b0 = "A"%byte ∧ b1 = "l"%byte) →
     text = String (ascii_of_byte b0) (String (ascii_of_byte b1) "")).
Proof.
  intros H0 H1. exists (softwareType tmpHeaderBytes). split; [done|].
  unfold softwareType.
  rewrite (list_lookup_total_correct _ _ _ H0).
  rewrite (list_lookup_total_correct _ _ _ H1).
  repeat split.
  - intros [-> ->]. by rewrite decide_True.
  - intros [-> ->]. rewrite decide_False by (by intros [? _]).
    by rewrite decide_True.
  - intros Hgm Hal. by rewrite !decide_False.
Qed.

Lemma softwareType_rendering_witness :
  ∃ text,
    showHeaderFields gm_header !! 4 =
      Some (Out ("             Software type: " +:+ text)) ∧
    text = "Game".
Proof.
  destruct (softwareType_rendering gm_header "G" "M" eq_refl eq_refl)
    as (text & Hline & Hgm & _).
  exists text. split; [exact Hline|]. apply Hgm. split; reflexivity.
Defined.

Section InfoReporter.

Context (w : World).

Lemma memcmp_app_l (a x b : list byte) (n : nat) :
  n ≤ length a → memcmp (a ++ x) b n = memcmp a b n.
Proof.
  revert a b. induction n as [|n IH]; intros a b Ha; [done|].
  destruct a as [|y a]; [simpl in Ha; lia|].
  cbn [memcmp]. change ((y :: a) ++ x) with (y :: (a ++ x)).
  change ((y :: a ++ x) !!! 0) with y. change ((y :: a) !!! 0) with y.
  cbn [drop]. rewrite !drop_0. simpl in Ha. by rewrite IH by lia.
Qed.

(** The detector reads only the first 512 bytes of its buffer. *)
Lemma getLikelyFormat_app (hdr pad : list byte) :
  length hdr = NUM_HEADER_BYTES →
  getLikelyFormat (hdr ++ pad) = getLikelyFormat hdr.
Proof.
  intros Hlen. unfold NUM_HEADER_BYTES in Hlen. unfold getLikelyFormat.
  rewrite drop_app_le by (rewrite Hlen; vm_compute; lia).
  rewrite memcmp_app_l
    by (rewrite length_drop, Hlen; vm_compute; lia).
  rewrite !lookup_total_app_l by lia. done.
Qed.

(** What [showInfoList] prints for one file that opens, has a full header
    and is detected as SMD: the block read is compared with 512, not with
    16384. *)
Lemma showInfoList_SMD_file (filename : string) (data : list byte) :
  files w !! filename = Some data → filename ∉ denied w →
  NUM_HEADER_BYTES ≤ length data →
  getLikelyFormat (take NUM_HEADER_BYTES data) = SMD →
  let blk := take NUM_SMD_BLOCK_BYTES (drop NUM_HEADER_BYTES data) in
  let tmpSMDBlock :=
    blk ++ drop (length blk) (memset0 NUM_SMD_BLOCK_BYTES) in
  showInfoList w [filename] =
    Out ("Showing info from ROM data for file: " +:+ filename) ::
    (if length blk <? NUM_HEADER_BYTES then
       [Err "  NGROM ERROR: Incomplete read..."; skipping]
     else
       showHeaderFields
         (decodeSMDBlock (memset0 NUM_SMD_BLOCK_BYTES) tmpSMDBlock)).
Proof.
  intros Hf Hden Hlen Hfmt blk tmpSMDBlock.
  unfold showInfoList. cbn [foldl]. unfold showInfoList_body.
  assert (fopen_r w filename = inr (mkRFILE filename 0)) as ->
    by (apply fopen_r_inr; eauto).
  cbn [info_tmpHeaderBytes info_tmpSMDBlock info_console].
  assert (file_bytes w filename = data) as Hfb
    by (unfold file_bytes; by rewrite Hf).
  assert (length (take NUM_HEADER_BYTES data) = NUM_HEADER_BYTES) as Hhl
    by (rewrite length_take; lia).
  unfold fread. cbn [r_path r_pos]. rewrite !Hfb, !drop_0.
  rewrite !Hhl, Nat.ltb_irrefl, Nat.add_0_l.
  rewrite getLikelyFormat_app by done. rewrite Hfmt.
  fold blk. fold tmpSMDBlock.
  by destruct (length blk <? NUM_HEADER_BYTES).
Qed.

End InfoReporter.

(** C4 (the program departs from the claim): the block of the file
    ["short.smd"] is read short, 9000 bytes of 16384, yet [showInfoList]
    logs no error and prints the fields of the decoded, zero-padded block.
    In general, a block read of at least 512 and fewer than 16384 bytes is
    decoded, not skipped. *)
Theorem showInfoList_decodes_short_block :
  showInfoList truncated_smd_world ["short.smd"] =
  [ Out "Showing info from ROM data for file: short.smd";
    Out "                    System: ZZZZZZZZZZZZZZZZ";
    Out "                 Copyrigth: ZZZZZZZZZZZZZZZZ";
    Out "      Game name (domestic): ZZZZZZZZZZZZZZZZZZZZZZZZZZZZZZZZZZZZZZZZZZZZZZZZ";
    Out "      Game name (overseas): ZZZZZZZZZZZZZZZZZZZZZZZZZZZZZZZZZZZZZZZZZZZZZZZZ";
    Out "             Software type: ZZ";
    Out "  Product code and version: ZZZZZZZZZZZ";
    Out "                  Checksum: 0x5A5A";
    Out "               I/O support: ZZZZZZZZZZZZZZZZ";
    Out "         ROM start address: 0x5A5A5A5A";
    Out "           ROM end address: 0x5A5A5A5A";
    Out "                Modem data: ZZZZZZZZZZZZZZZZZZZZ";
    Out "                      Memo: ZZZZZZZZZZZZZZZZZZZZZZZZZZZZZZZZZZZZZZZZ";
    Out "                 Countries: ZZZ" ] ∧
  ∀ (w : World) (filename : string) (data : list byte),
    files w !! filename = Some data → filename ∉ denied w →
    NUM_HEADER_BYTES ≤ length data →
    getLikelyFormat (take NUM_HEADER_BYTES data) = SMD →
    NUM_HEADER_BYTES ≤ length (drop NUM_HEADER_BYTES data)
      < NUM_SMD_BLOCK_BYTES →
    showInfoList w [filename] =
    Out ("Showing info from ROM data for file: " +:+ filename) ::
    showHeaderFields
      (decodeSMDBlock (memset0 NUM_SMD_BLOCK_BYTES)
         (drop NUM_HEADER_BYTES data ++
          replicate (NUM_SMD_BLOCK_BYTES
                     - length (drop NUM_HEADER_BYTES data)) x00)).
Proof.
  split; [vm_compute; reflexivity|].
  intros w filename data Hf Hden Hlen Hfmt [Hlo Hhi].
  rewrite (showInfoList_SMD_file w filename data) by done.
  cbv zeta. rewrite take_ge by lia.
  destruct (Nat.ltb_spec (length (drop NUM_HEADER_BYTES data))
              NUM_HEADER_BYTES); [lia|].
  unfold memset0 at 2. by rewrite drop_replicate.
Qed.

(** ** Converter *)

Section Converter.

Implicit Types (w : World) (st : ConvState) (con : list Line).

(** *** Size validation *)

Lemma convertData_bad_size filename out st :
  QFileInfo_size (conv_world st) filename
    < NUM_HEADER_BYTES + NUM_SMD_BLOCK_BYTES ∨
  (QFileInfo_size (conv_world st) filename - NUM_HEADER_BYTES)
    `mod` NUM_SMD_BLOCK_BYTES ≠ 0 →
  ∃ line, convertData filename out st =
          Return false (mkConvState (conv_world st)
                          (conv_console st ++ [Err line])).
Proof.
  intros Hbad. unfold convertData.
  destruct (Nat.ltb_spec (QFileInfo_size (conv_world st) filename)
              (NUM_HEADER_BYTES + NUM_SMD_BLOCK_BYTES)) as [Hlt|Hge];
    [by eexists|].
  destruct Hbad as [Hlt|Hmod]; [lia|].
  destruct (Nat.ltb_spec 0
              ((QFileInfo_size (conv_world st) filename - NUM_HEADER_BYTES)
                 `mod` NUM_SMD_BLOCK_BYTES)) as [Hpos|Hz];
    [by eexists|lia].
Qed.

(** *** The console is only appended to *)

Lemma convertBlocks_console n f out w con :
  convertBlocks n f out (mkConvState w con) =
  let r := convertBlocks n f out (mkConvState w []) in
  (r.1, mkConvState (conv_world r.2) (con ++ conv_console r.2)).
Proof.
  revert f w. induction n as [|n IH]; intros f w; cbn [convertBlocks].
  - cbn. by rewrite app_nil_r.
  - cbn [conv_world conv_console].
    destruct (fread w (memset0 NUM_SMD_BLOCK_BYTES) NUM_SMD_BLOCK_BYTES f)
      as [[k buf] f'].
    destruct (k <? NUM_SMD_BLOCK_BYTES); [done|].
    destruct (fwrite w out _ NUM_SMD_BLOCK_BYTES) as [k' w'].
    destruct (k' <? NUM_SMD_BLOCK_BYTES); [done|].
    apply IH.
Qed.

Lemma convertData_console filename out w con :
  convertData filename out (mkConvState w con) =
  with_console_prefix con (convertData filename out (mkConvState w [])).
Proof.
  unfold convertData. cbn [conv_world conv_console].
  destruct (_ <? _); [done|].
  destruct (0 <? _); [done|].
  destruct (fopen_r w filename) as [e|f]; [done|].
  destruct (fopen_w w out) as [e|w']; [done|].
  rewrite convertBlocks_console.
  destruct (convertBlocks _ _ out (mkConvState w' [])) as [ok st'].
  cbn [fst snd conv_world conv_console].
  destruct ok; cbn [with_console_prefix conv_world conv_console];
    by rewrite ?app_assoc.
Qed.

Lemma with_console_prefix_app con con' (c : Ctl ConvState) :
  with_console_prefix (con ++ con') c =
  with_console_prefix con (with_console_prefix con' c).
Proof.
  destruct c; cbn [with_console_prefix conv_world conv_console];
    by rewrite app_assoc.
Qed.

Lemma convertData_console_app filename out w con con' :
  convertData filename out (mkConvState w (con ++ con')) =
  with_console_prefix con
    (convertData filename out (mkConvState w con')).
Proof.
  rewrite convertData_console, (convertData_console _ _ _ con').
  apply with_console_prefix_app.
Qed.

Lemma convertFiles_body_console outdir act filename w con :
  convertFiles_body outdir act filename (mkConvState w con) =
  with_console_prefix con
    (convertFiles_body outdir act filename (mkConvState w [])).
Proof.
  unfold convertFiles_body. cbn [conv_world conv_console].
  destruct (QFileInfo_exists w _).
  - destruct act; cbn [with_console_prefix conv_world conv_console];
      rewrite ?app_nil_l, <- ?app_assoc; try done;
      apply convertData_console_app.
  - rewrite app_nil_l. apply convertData_console_app.
Qed.

Lemma for_each_console outdir act l w con :
  for_each (convertFiles_body outdir act) l (mkConvState w con) =
  with_console_prefix con
    (for_each (convertFiles_body outdir act) l (mkConvState w [])).
Proof.
  revert w con. induction l as [|f l IH]; intros w con; cbn [for_each].
  - cbn. by rewrite app_nil_r.
  - rewrite convertFiles_body_console.
    destruct (convertFiles_body outdir act f (mkConvState w []))
      as [[w' con']|b [w' con']];
      cbn [with_console_prefix conv_world conv_console]; [|done].
    rewrite IH. rewrite (IH w' con').
    by destruct (for_each _ l _);
      cbn [with_console_prefix conv_world conv_console];
      rewrite <- ?app_assoc.
Qed.

(** *** The output path is never the input path *)

Lemma outFilename_cases filename :
  (∃ stem ext, has_extension (QFileInfo_fileName filename) stem ext ∧
               toLower ext = "smd" ∧
               outFilename filename = stem +:+ ".bin") ∨
  outFilename filename = QFileInfo_fileName filename +:+ ".bin".
Proof.
  destruct (decide (toLower (QFileInfo_suffix filename) = "smd"))
    as [Hsmd|Hsmd].
  - left. unfold QFileInfo_suffix in Hsmd.
    destruct (after_last "." (QFileInfo_fileName filename))
      as [ext|] eqn:Hs; [|done].
    apply after_last_Some in Hs as (stem & Hname & Hext).
    exists stem, ext.
    assert (has_extension (QFileInfo_fileName filename) stem ext)
      by done.
    eauto using outFilename_smd.
  - right. unfold outFilename. by rewrite decide_False.
Qed.

Lemma outFilename_ne filename :
  outFilename filename ≠ QFileInfo_fileName filename.
Proof.
  destruct (outFilename_cases filename)
    as [(stem & ext & [Hname _] & Hlow & ->)| ->]; intros Heq.
  - rewrite Hname in Heq. apply String.app_inj in Heq.
    change ("." +:+ ext) with (String "." ext) in Heq.
    injection Heq as <-. done.
  - apply (f_equal String.length) in Heq.
    rewrite length_append in Heq. cbn in Heq. lia.
Qed.

Lemma outFilename_no_slash filename :
  has_char "/" (outFilename filename) = false.
Proof.
  pose proof (QFileInfo_fileName_no_slash filename) as Hname.
  destruct (outFilename_cases filename)
    as [(stem & ext & [Heq _] & _ & ->)| ->].
  - rewrite Heq, has_char_append in Hname.
    apply orb_false_iff in Hname as [Hstem _].
    by rewrite has_char_append, Hstem.
  - by rewrite has_char_append, Hname.
Qed.

Lemma outFileFullPath_ne outdir filename :
  filename ≠ outFileFullPath outdir filename.
Proof.
  intros Heq. apply (f_equal QFileInfo_fileName) in Heq.
  unfold outFileFullPath in Heq.
  rewrite QFileInfo_fileName_join in Heq by apply outFilename_no_slash.
  by apply (outFilename_ne filename).
Qed.

(** *** A conversion that meets no error *)

Lemma NUM_SMD_BLOCK_BYTES_pos : 0 < NUM_SMD_BLOCK_BYTES.
Proof. pose proof NUM_SMD_BLOCK_BYTES_Z. lia. Qed.

Lemma convertBlocks_ok n pos filename out w con data :
  filename ≠ out →
  files w !! filename = Some data →
  is_Some (files w !! out) →
  pos + n * NUM_SMD_BLOCK_BYTES ≤ length data →
  n * NUM_SMD_BLOCK_BYTES ≤ space w →
  convertBlocks n (mkRFILE filename pos) out (mkConvState w con) =
  (true,
   mkConvState
     (mkWorld (<[out := file_bytes w out ++ decodeBlocks n (drop pos data)]>
                 (files w))
              (denied w) (space w - n * NUM_SMD_BLOCK_BYTES))
     con).
Proof.
  intros Hne. revert pos w.
  induction n as [|n IH]; intros pos w Hin Hout Hlen Hspace.
  - cbn [convertBlocks decodeBlocks]. rewrite app_nil_r.
    destruct Hout as [old Hout]. unfold file_bytes. rewrite Hout.
    cbn [default from_option id]. rewrite insert_id by done.
    rewrite Nat.mul_0_l, Nat.sub_0_r. by destruct w.
  - pose proof NUM_SMD_BLOCK_BYTES_pos as HN.
    cbn [convertBlocks decodeBlocks conv_world conv_console].
    assert (length (take NUM_SMD_BLOCK_BYTES (drop pos data))
            = NUM_SMD_BLOCK_BYTES) as Hblk
      by (rewrite length_take, length_drop; lia).
    unfold fread. cbn [r_path r_pos].
    assert (file_bytes w filename = data) as ->
      by (unfold file_bytes; by rewrite Hin).
    rewrite Hblk, Nat.ltb_irrefl.
    rewrite (drop_ge (memset0 _)), app_nil_r
      by (unfold memset0; rewrite length_replicate; lia).
    set (bin := decodeSMDBlock (memset0 NUM_SMD_BLOCK_BYTES)
                  (take NUM_SMD_BLOCK_BYTES (drop pos data))).
    assert (length bin = NUM_SMD_BLOCK_BYTES) as Hbin.
    { unfold bin, memset0.
      by rewrite decodeSMDBlock_length, length_replicate. }
    unfold fwrite. rewrite Nat.min_l by lia. rewrite Nat.ltb_irrefl.
    rewrite take_ge by lia.
    rewrite IH; cbn [files denied space].
    + unfold file_bytes at 1. cbn [files].
      rewrite lookup_insert_eq. cbn [default from_option id].
      rewrite insert_insert_eq, <- app_assoc, drop_drop.
      do 3 f_equal. lia.
    + by rewrite lookup_insert_ne.
    + rewrite lookup_insert_eq. eauto.
    + lia.
    + lia.
Qed.

Lemma convertData_ok filename out w con data :
  filename ≠ out →
  files w !! filename = Some data →
  filename ∉ denied w → out ∉ denied w →
  NUM_HEADER_BYTES + NUM_SMD_BLOCK_BYTES ≤ length data →
  (length data - NUM_HEADER_BYTES) `mod` NUM_SMD_BLOCK_BYTES = 0 →
  length data - NUM_HEADER_BYTES ≤ space w →
  convertData filename out (mkConvState w con) =
  Next (mkConvState
          (mkWorld
             (<[out := decodeBlocks
                         ((length data - NUM_HEADER_BYTES)
                            / NUM_SMD_BLOCK_BYTES)
                         (drop NUM_HEADER_BYTES data)]> (files w))
             (denied w)
             (space w - (length data - NUM_HEADER_BYTES)))
          (con ++ [Out "  Conversion complete!"])).
Proof.
  intros Hne Hin Hdin Hdout Hsize Hmod Hspace.
  pose proof NUM_SMD_BLOCK_BYTES_pos as HN.
  unfold convertData. cbn [conv_world conv_console].
  assert (QFileInfo_size w filename = length data) as ->
    by (unfold QFileInfo_size, file_bytes; by rewrite Hin).
  destruct (Nat.ltb_spec (length data)
              (NUM_HEADER_BYTES + NUM_SMD_BLOCK_BYTES)); [lia|].
  rewrite Hmod. cbn [Nat.ltb Nat.leb].
  assert (fopen_r w filename = inr (mkRFILE filename 0)) as ->
    by (apply fopen_r_inr; eauto).
  unfold fopen_w. rewrite decide_False by done.
  unfold fseek_set. cbn [r_path].
  set (n := (length data - NUM_HEADER_BYTES) / NUM_SMD_BLOCK_BYTES).
  assert (length data - NUM_HEADER_BYTES = n * NUM_SMD_BLOCK_BYTES) as Hn.
  { pose proof (Nat.div_mod_eq (length data - NUM_HEADER_BYTES)
                  NUM_SMD_BLOCK_BYTES) as Hdm.
    rewrite Hmod in Hdm. fold n in Hdm. lia. }
  rewrite (convertBlocks_ok n NUM_HEADER_BYTES filename out _ con data);
    cbn [files denied space]; [| done | | | lia | lia].
  - cbn [conv_world conv_console]. unfold file_bytes. cbn [files].
    rewrite lookup_insert_eq. cbn [default from_option id].
    rewrite app_nil_l, insert_insert_eq. by rewrite Hn.
  - by rewrite lookup_insert_ne.
  - rewrite lookup_insert_eq. eauto.
Qed.

(** *** The loop, one file at a time *)

Lemma convertFiles_body_exists outdir act filename w con :
  QFileInfo_exists w (outFileFullPath outdir filename) = true →
  convertFiles_body outdir act filename (mkConvState w con) =
  let con' :=
    con ++ [ Out ("Converting " +:+ filename);
             Out ("        to " +:+ outFileFullPath outdir filename);
             Err "  NGROM WARNING: Output file already exists!" ] in
  match act with
  | STOP => Return false (mkConvState w con')
  | SKIP => Next (mkConvState w (con' ++ [Out "  ...skipping!"]))
  | _ => convertData filename (outFileFullPath outdir filename)
           (mkConvState w con')
  end.
Proof.
  intros Hex. unfold convertFiles_body. cbn [conv_world conv_console].
  rewrite Hex. cbv zeta. rewrite <- app_assoc. done.
Qed.

Lemma convertFiles_body_fresh outdir act filename w con :
  QFileInfo_exists w (outFileFullPath outdir filename) = false →
  convertFiles_body outdir act filename (mkConvState w con) =
  convertData filename (outFileFullPath outdir filename)
    (mkConvState w
       (con ++ [ Out ("Converting " +:+ filename);
                 Out ("        to " +:+ outFileFullPath outdir filename) ])).
Proof.
  intros Hex. unfold convertFiles_body. cbn [conv_world conv_console].
  by rewrite Hex.
Qed.

Lemma convertFiles_cons filename rest outdir act w :
  convertFiles (filename :: rest) outdir act w =
  match convertFiles_body outdir act filename (mkConvState w []) with
  | Next st =>
      let '(b, w', con) := convertFiles rest outdir act (conv_world st) in
      (b, w', conv_console st ++ con)
  | Return b st => (b, conv_world st, conv_console st)
  end.
Proof.
  unfold convertFiles. cbn [for_each].
  destruct (convertFiles_body outdir act filename (mkConvState w []))
    as [[w1 con1]|b [w1 con1]]; [|done].
  rewrite for_each_console. cbn [conv_world conv_console].
  by destruct (for_each _ rest _) as [[w' con']|b [w' con']].
Qed.

(** Every [return] inside the loop is [return false]. *)
Lemma convertData_Return filename out st b st' :
  convertData filename out st = Return b st' → b = false.
Proof.
  unfold convertData.
  destruct (_ <? _); [by intros [= <- _]|].
  destruct (0 <? _); [by intros [= <- _]|].
  destruct (fopen_r _ filename); [by intros [= <- _]|].
  destruct (fopen_w _ out); [by intros [= <- _]|].
  destruct (convertBlocks _ _ out _) as [[] st'']; [done|].
  by intros [= <- _].
Qed.

Lemma convertFiles_body_Return outdir act filename st b st' :
  convertFiles_body outdir act filename st = Return b st' → b = false.
Proof.
  unfold convertFiles_body.
  destruct (QFileInfo_exists _ _); [destruct act|];
    try apply convertData_Return; [by intros [= <- _]|done].
Qed.

Lemma convertFiles_app l1 l2 outdir act w :
  convertFiles (l1 ++ l2) outdir act w =
  let '(b1, w1, con1) := convertFiles l1 outdir act w in
  if b1 then
    let '(b2, w2, con2) := convertFiles l2 outdir act w1 in
    (b2, w2, con1 ++ con2)
  else (false, w1, con1).
Proof.
  revert w. induction l1 as [|f l1 IH]; intros w.
  - rewrite app_nil_l. change (convertFiles [] outdir act w) with (true, w, @nil Line).
    cbv beta iota zeta.
    by destruct (convertFiles l2 outdir act w) as [[b2 w2] con2].
  - rewrite <- app_comm_cons, !convertFiles_cons.
    destruct (convertFiles_body outdir act f (mkConvState w []))
      as [st|b st] eqn:Hbody.
    + rewrite IH.
      destruct (convertFiles l1 outdir act (conv_world st))
        as [[[] w1] con1]; [|done].
      destruct (convertFiles l2 outdir act w1) as [[b2 w2] con2].
      by rewrite app_assoc.
    + by rewrite (convertFiles_body_Return _ _ _ _ _ _ Hbody).
Qed.

Lemma convertFiles_head_bad_size outdir act w filename :
  ¬ (QFileInfo_exists w (outFileFullPath outdir filename) = true ∧
     act = SKIP) →
  QFileInfo_size w filename < NUM_HEADER_BYTES + NUM_SMD_BLOCK_BYTES ∨
  (QFileInfo_size w filename - NUM_HEADER_BYTES)
    `mod` NUM_SMD_BLOCK_BYTES ≠ 0 →
  ∃ con, ∀ rest,
    convertFiles (filename :: rest) outdir act w = (false, w, con).
Proof.
  intros Hskip Hbad.
  assert (∀ con, ∃ line,
            convertData filename (outFileFullPath outdir filename)
              (mkConvState w con) =
            Return false (mkConvState w (con ++ [Err line]))) as Hdata
    by (intros con; by apply convertData_bad_size).
  destruct (QFileInfo_exists w (outFileFullPath outdir filename)) eqn:Hex.
  - destruct (Hdata ([] ++ [ Out ("Converting " +:+ filename);
                Out ("        to " +:+ outFileFullPath outdir filename);
                Err "  NGROM WARNING: Output file already exists!" ]))
      as [line Hline].
    destruct act; [| |  |by destruct Hskip];
      eexists; intros rest;
      rewrite convertFiles_cons, convertFiles_body_exists by done;
      cbv zeta; rewrite ?Hline; done.
  - destruct (Hdata ([] ++ [ Out ("Converting " +:+ filename);
                Out ("        to " +:+ outFileFullPath outdir filename) ]))
      as [line Hline].
    eexists. intros rest.
    rewrite convertFiles_cons, convertFiles_body_fresh by done.
    by rewrite Hline.
Qed.

End Converter.

(** C5, as the program has it: when the files before it were converted or
    skipped without error, leaving the file system [w1], and it is not the
    case that the file's output path already exists and the collision
    policy is Skip (the file is then skipped before its size is looked at),
    [convertFiles] returns false at a file whose size is below 16896 bytes
    or whose size minus 512 is not a multiple of 16384; nothing more is
    written and the files after it are not processed (the result is the
    same whatever they are). *)
Theorem convertFiles_rejects_bad_size (outdir : string)
    (fileCollisionAction : FileCheckAction) (w w1 : World)
    (before : list string) (con1 : list Line) (filename : string) :
  convertFiles before outdir fileCollisionAction w = (true, w1, con1) →
  ¬ (QFileInfo_exists w1 (outFileFullPath outdir filename) = true ∧
     fileCollisionAction = SKIP) →
  QFileInfo_size w1 filename < NUM_HEADER_BYTES + NUM_SMD_BLOCK_BYTES ∨
  (QFileInfo_size w1 filename - NUM_HEADER_BYTES)
    `mod` NUM_SMD_BLOCK_BYTES ≠ 0 →
  ∃ con, ∀ rest,
    convertFiles (before ++ filename :: rest) outdir fileCollisionAction w
    = (false, w1, con1 ++ con).
Proof.
  intros Hbefore Hskip Hbad.
  destruct (convertFiles_head_bad_size outdir fileCollisionAction w1 filename
              Hskip Hbad) as [con Hcon].
  exists con. intros rest.
  by rewrite convertFiles_app, Hbefore, Hcon.
Qed.

Lemma convertFiles_rejects_bad_size_witness :
  (∃ con, ∀ rest,
     convertFiles ([] ++ "tiny.smd" :: rest) "out" SKIP bad_size_world
     = (false, bad_size_world, [] ++ con)) ∧
  (∃ con, ∀ rest,
     convertFiles ([] ++ "odd.smd" :: rest) "out" WARN bad_size_world
     = (false, bad_size_world, [] ++ con)) ∧
  (∃ con, ∀ rest,
     convertFiles (["tiny.smd"] ++ "missing.smd" :: rest) "out" SKIP
       collision_world
     = (false, collision_world,
        [ Out "Converting tiny.smd";
          Out "        to out/tiny.bin";
          Err "  NGROM WARNING: Output file already exists!";
          Out "  ...skipping!" ] ++ con)).
Proof.
  repeat split; apply convertFiles_rejects_bad_size.
  - reflexivity.
  - intros [H _]. vm_compute in H. discriminate.
  - left. apply Nat.ltb_lt. vm_compute. reflexivity.
  - reflexivity.
  - intros [H _]. vm_compute in H. discriminate.
  - left. apply Nat.ltb_lt. vm_compute. reflexivity.
  - vm_compute. reflexivity.
  - intros [H _]. vm_compute in H. discriminate.
  - left. apply Nat.ltb_lt. vm_compute. reflexivity.
Defined.

(** C5 as stated fails: a 500-byte input whose output file exists is
    skipped under the Skip policy, and [convertFiles] returns true. *)
Lemma convertFiles_skips_before_size_check :
  QFileInfo_size collision_world "tiny.smd" = 500 ∧
  convertFiles ["tiny.smd"] "out" SKIP collision_world =
  (true, collision_world,
   [ Out "Converting tiny.smd";
     Out "        to out/tiny.bin";
     Err "  NGROM WARNING: Output file already exists!";
     Out "  ...skipping!" ]).
Proof. split; vm_compute; reflexivity. Qed.

(** C6: when the output path already exists, Stop makes [convertFiles]
    return false at once (nothing written, the remaining files not
    processed); Skip leaves this file alone and goes on with the next file;
    Warn goes on to validate and convert the file as usual, and a
    conversion that meets no error replaces the old output with the decoded
    blocks and goes on with the next file. *)
Theorem convertFiles_collision (outdir : string) (w : World)
    (filename : string) :
  let out := outFileFullPath outdir filename in
  let notice :=
    [ Out ("Converting " +:+ filename);
      Out ("        to " +:+ out);
      Err "  NGROM WARNING: Output file already exists!" ] in
  QFileInfo_exists w out = true →
  (∀ rest, convertFiles (filename :: rest) outdir STOP w
           = (false, w, notice)) ∧
  (∀ rest, convertFiles (filename :: rest) outdir SKIP w =
           let '(b, w', con) := convertFiles rest outdir SKIP w in
           (b, w', notice ++ Out "  ...skipping!" :: con)) ∧
  (∀ con, convertFiles_body outdir WARN filename (mkConvState w con) =
          convertData filename out (mkConvState w (con ++ notice))) ∧
  (∀ data rest,
     files w !! filename = Some data →
     filename ∉ denied w → out ∉ denied w →
     NUM_HEADER_BYTES + NUM_SMD_BLOCK_BYTES ≤ length data →
     (length data - NUM_HEADER_BYTES) `mod` NUM_SMD_BLOCK_BYTES = 0 →
     length data - NUM_HEADER_BYTES ≤ space w →
     convertFiles (filename :: rest) outdir WARN w =
     let w1 :=
       mkWorld
         (<[out := decodeBlocks
                     ((length data - NUM_HEADER_BYTES) / NUM_SMD_BLOCK_BYTES)
                     (drop NUM_HEADER_BYTES data)]> (files w))
         (denied w) (space w - (length data - NUM_HEADER_BYTES)) in
     let '(b, w', con) := convertFiles rest outdir WARN w1 in
     (b, w', notice ++ Out "  Conversion complete!" :: con)).
Proof.
  intros out notice Hex. repeat split.
  - intros rest.
    by rewrite convertFiles_cons, convertFiles_body_exists.
  - intros rest.
    rewrite convertFiles_cons, convertFiles_body_exists by done.
    cbv zeta. cbn [conv_world conv_console].
    destruct (convertFiles rest outdir SKIP w) as [[b w'] con].
    by rewrite app_nil_l, <- app_assoc.
  - intros con. by rewrite convertFiles_body_exists.
  - intros data rest Hin Hdin Hdout Hsize Hmod Hspace.
    rewrite convertFiles_cons, convertFiles_body_exists by done.
    cbv zeta.
    rewrite (convertData_ok filename _ w _ data)
      by (done || apply outFileFullPath_ne).
    cbn [conv_world conv_console]. fold out.
    destruct (convertFiles rest outdir WARN _) as [[b w'] con].
    by rewrite app_nil_l, <- app_assoc.
Qed.

Lemma convertFiles_collision_witness :
  convertFiles ["tiny.smd"; "other.smd"] "out" STOP collision_world =
  (false, collision_world,
   [ Out "Converting tiny.smd";
     Out "        to out/tiny.bin";
     Err "  NGROM WARNING: Output file already exists!" ]) ∧
  convertFiles ["game.smd"] "out" WARN overwrite_world =
  (true,
   mkWorld {[ "game.smd" := smd_header ++ sample_block;
              "out/game.bin" := decodeBlocks 1 sample_block ]} ∅ 0,
   [ Out "Converting game.smd";
     Out "        to out/game.bin";
     Err "  NGROM WARNING: Output file already exists!";
     Out "  Conversion complete!" ]).
Proof.
  split.
  - refine (proj1 (convertFiles_collision "out" collision_world "tiny.smd" _)
              ["other.smd"]).
    vm_compute. reflexivity.
  - pose proof (proj2 (proj2 (proj2
        (convertFiles_collision "out" overwrite_world "game.smd" eq_refl)))
      (smd_header ++ sample_block) []) as Hwarn.
    rewrite Hwarn.
    + assert (length (smd_header ++ sample_block) - NUM_HEADER_BYTES
              = NUM_SMD_BLOCK_BYTES) as Hlen by (vm_compute; reflexivity).
      assert (NUM_SMD_BLOCK_BYTES / NUM_SMD_BLOCK_BYTES = 1) as Hdiv
        by (vm_compute; reflexivity).
      assert (drop NUM_HEADER_BYTES (smd_header ++ sample_block)
              = sample_block) as Hdrop by (vm_compute; reflexivity).
      cbv zeta. rewrite Hlen, Hdiv, Hdrop.
      change (convertFiles [] "out" WARN ?w) with (true, w, @nil Line).
      cbv beta iota.
      f_equal.
    + reflexivity.
    + vm_compute. intros H. inversion H.
    + vm_compute. intros H. inversion H.
    + apply Nat.leb_le. vm_compute. reflexivity.
    + vm_compute. reflexivity.
    + apply Nat.leb_le. vm_compute. reflexivity.
Defined.

(** * Further properties *)

(** ** Block codec *)

(** X1: [decodeSMDBlock] loses nothing: two 16384-byte SMD blocks that
    decode to the same block are the same block (whatever the two
    16384-byte destinations held). *)
Theorem decodeSMDBlock_injective (dest dest' src src' : list byte) :
  length src = NUM_SMD_BLOCK_BYTES → length src' = NUM_SMD_BLOCK_BYTES →
  length dest = NUM_SMD_BLOCK_BYTES → length dest' = NUM_SMD_BLOCK_BYTES →
  decodeSMDBlock dest src = decodeSMDBlock dest' src' → src = src'.
Proof.
  intros Hs Hs' Hd Hd' Heq. apply list_eq. intros k.
  destruct (decide (k < NUM_SMD_BLOCK_BYTES)) as [Hk|Hk].
  - rewrite (list_lookup_lookup_total_lt src k) by lia.
    rewrite (list_lookup_lookup_total_lt src' k) by lia.
    rewrite block_is_two_halves in Hk.
    destruct (decide (k < HALF_BLOCK)) as [Hlt|Hge].
    + rewrite <- (decodeSMDBlock_odd dest src k Hlt Hd).
      rewrite <- (decodeSMDBlock_odd dest' src' k Hlt Hd').
      exact (f_equal (λ l, l !! (2 * k + 1)) Heq).
    + replace k with ((k - HALF_BLOCK) + HALF_BLOCK) by lia.
      rewrite <- (decodeSMDBlock_even dest src (k - HALF_BLOCK)) by (lia || done).
      rewrite <- (decodeSMDBlock_even dest' src' (k - HALF_BLOCK)) by (lia || done).
      exact (f_equal (λ l, l !! (2 * (k - HALF_BLOCK))) Heq).
  - rewrite !lookup_ge_None_2; [done|lia|lia].
Qed.

Lemma decodeSMDBlock_injective_witness :
  sample_block = sample_block.
Proof.
  apply (decodeSMDBlock_injective (memset0 NUM_SMD_BLOCK_BYTES) sample_block
           sample_block sample_block).
  - vm_compute; reflexivity.
  - vm_compute; reflexivity.
  - vm_compute; reflexivity.
  - vm_compute; reflexivity.
  - apply decodeSMDBlock_dest_irrelevant; vm_compute; reflexivity.
Defined.

(** X2: [decodeSMDBlock] writes every byte of a 16384-byte destination: the
    result does not depend on what the destination held, so clearing it
    first changes nothing. *)
Theorem decodeSMDBlock_overwrites_destination (dest dest' src : list byte) :
  length dest = NUM_SMD_BLOCK_BYTES → length dest' = NUM_SMD_BLOCK_BYTES →
  decodeSMDBlock dest src = decodeSMDBlock dest' src.
Proof. apply decodeSMDBlock_dest_irrelevant. Qed.

Lemma decodeSMDBlock_overwrites_destination_witness :
  decodeSMDBlock sample_block sample_block
  = decodeSMDBlock (memset0 NUM_SMD_BLOCK_BYTES) sample_block.
Proof.
  apply decodeSMDBlock_overwrites_destination; vm_compute; reflexivity.
Defined.

Lemma matches_format_detected (fmt : RomFormat) (hdr : list byte) :
  fmt ≠ UNK_FMT → length hdr = NUM_HEADER_BYTES →
  matches_format fmt hdr ↔ getLikelyFormat hdr = fmt.
Proof.
  intros Hfmt Hlen. unfold NUM_HEADER_BYTES in Hlen.
  assert (0x100 + 4 ≤ length hdr) as Hm by (rewrite Hlen; vm_compute; lia).
  pose proof (memcmp_SEGA_iff hdr Hm) as Hs.
  pose proof (lookup_total_eq_iff hdr 8 xaa ltac:(lia)) as H8.
  pose proof (lookup_total_eq_iff hdr 9 xbb ltac:(lia)) as H9.
  unfold getLikelyFormat.
  destruct fmt; [done| |]; unfold matches_format, has_AABB;
    rewrite <- ?H8, <- ?H9; repeat case_decide; split; intros; try done;
    tauto.
Qed.

(** X3: the checker agrees with the detector: for BIN and SMD,
    [checkFormats] returns true iff every file of the list opens, yields 512
    bytes, and [getLikelyFormat] of those bytes is the format asked for. *)
Theorem checkFormats_agrees_with_getLikelyFormat (fmt : RomFormat) (w : World)
    (filenameList : list string) :
  fmt ≠ UNK_FMT →
  (checkFormats fmt w filenameList).1 = true ↔
  Forall (detected_as fmt w) filenameList.
Proof.
  intros Hfmt.
  destruct (checkFormats_loop w fmt filenameList
              (mkCheckState true (memset0 NUM_HEADER_BYTES) []) Hfmt)
    as (st' & Hloop & Hret & _).
  unfold checkFormats. rewrite Hloop. cbn [fst]. rewrite Hret.
  cbn [chk_retval].
  assert (∀ f, file_passes fmt w f ↔ detected_as fmt w f) as Hiff.
  { intros f. unfold file_passes, detected_as.
    split; intros (data & Hf & Hd & Hlen & H); exists data;
      repeat split; try done;
      apply (matches_format_detected fmt) in H; try done;
      rewrite length_take; lia. }
  split.
  - intros [_ H]. eapply Forall_impl; [exact H|]. intros f. apply Hiff.
  - intros H. split; [done|].
    eapply Forall_impl; [exact H|]. intros f. apply Hiff.
Qed.

Lemma checkFormats_agrees_with_getLikelyFormat_witness :
  (checkFormats SMD check_world ["a.smd"]).1 = true ↔
  Forall (detected_as SMD check_world) ["a.smd"].
Proof.
  apply checkFormats_agrees_with_getLikelyFormat. discriminate.
Defined.

(** ** Header fields *)

Lemma field_window (a : list byte) (off n : nat) :
  0x100 ≤ off → off + n ≤ 0x200 →
  take n (drop off a) =
  take n (drop (off - 0x100) (take 0x100 (drop 0x100 a))).
Proof.
  intros Hlo Hhi. rewrite skipn_firstn_comm, take_take, drop_drop.
  rewrite Nat.min_l by lia. f_equal. f_equal. lia.
Qed.

Lemma byte_window (a : list byte) (i : nat) :
  0x100 ≤ i < 0x200 →
  a !!! i = take 0x100 (drop 0x100 a) !!! (i - 0x100).
Proof.
  intros Hi. rewrite lookup_total_take, decide_True by lia.
  rewrite lookup_total_drop. f_equal. lia.
Qed.

Lemma showHeaderFields_ext (a b : list byte) :
  take 0x100 (drop 0x100 a) = take 0x100 (drop 0x100 b) →
  showHeaderFields a = showHeaderFields b.
Proof.
  intros Hwin.
  assert (∀ i, 0x100 ≤ i < 0x200 → a !!! i = b !!! i) as Hb.
  { intros i Hi. by rewrite (byte_window a), (byte_window b), Hwin. }
  assert (∀ off n, 0x100 ≤ off → off + n ≤ 0x200 →
            take n (drop off a) = take n (drop off b)) as Hf.
  { intros off n Hlo Hhi.
    by rewrite (field_window a), (field_window b), Hwin. }
  unfold showHeaderFields, textField, hexField, softwareType, memcpy.
  rewrite (Hb 0x180), (Hb 0x181), (Hb 0x18e), (Hb 0x18f),
    (Hb 0x1a0), (Hb 0x1a1), (Hb 0x1a2), (Hb 0x1a3),
    (Hb 0x1a4), (Hb 0x1a5), (Hb 0x1a6), (Hb 0x1a7) by (cbv; lia).
  rewrite (Hf 0x100 16), (Hf 0x110 16), (Hf 0x120 48), (Hf 0x150 48),
    (Hf 0x183 11), (Hf 0x190 16), (Hf 0x1bc 20), (Hf 0x1c8 40),
    (Hf 0x1f0 3) by (cbv; lia).
  reflexivity.
Qed.

(** X4: the report reads only bytes 0x100..0x1FF of the header buffer: two
    buffers that agree there give the same thirteen lines. *)
Theorem showHeaderFields_window (a b : list byte) :
  take 0x100 (drop 0x100 a) = take 0x100 (drop 0x100 b) →
  showHeaderFields a = showHeaderFields b.
Proof. apply showHeaderFields_ext. Qed.

Lemma showHeaderFields_window_witness :
  showHeaderFields gm_header =
  showHeaderFields (replicate 0x100 xff ++ drop 0x100 gm_header ++ [x07]).
Proof. apply showHeaderFields_window. vm_compute. reflexivity. Defined.

Lemma hex02X_table (b : byte) : hex02X b = hex_of_byte b.
Proof. destruct b; reflexivity. Qed.

(** X5: the checksum line is its label and exactly four uppercase
    hexadecimal digits, two for each of the bytes 0x18E and 0x18F, the high
    digit first; the two ROM address lines have eight digits for their four
    bytes.  The sizes given to [snprintf] cut nothing off. *)
Theorem hex_fields_rendering (tmpHeaderBytes : list byte) :
  showHeaderFields tmpHeaderBytes !! 6 =
    Some (Out ("                  Checksum: 0x"
               +:+ hex_of_byte (tmpHeaderBytes !!! 0x18e)
               +:+ hex_of_byte (tmpHeaderBytes !!! 0x18f))) ∧
  showHeaderFields tmpHeaderBytes !! 8 =
    Some (Out ("         ROM start address: 0x"
               +:+ hex_of_byte (tmpHeaderBytes !!! 0x1a0)
               +:+ hex_of_byte (tmpHeaderBytes !!! 0x1a1)
               +:+ hex_of_byte (tmpHeaderBytes !!! 0x1a2)
               +:+ hex_of_byte (tmpHeaderBytes !!! 0x1a3))) ∧
  showHeaderFields tmpHeaderBytes !! 9 =
    Some (Out ("           ROM end address: 0x"
               +:+ hex_of_byte (tmpHeaderBytes !!! 0x1a4)
               +:+ hex_of_byte (tmpHeaderBytes !!! 0x1a5)
               +:+ hex_of_byte (tmpHeaderBytes !!! 0x1a6)
               +:+ hex_of_byte (tmpHeaderBytes !!! 0x1a7))).
Proof.
  unfold showHeaderFields, hexField. cbn [lookup list_lookup foldr].
  rewrite !hex02X_table.
  repeat split.
Qed.

(** ** Info reporter, file by file *)

Lemma fopen_r_inl (w : World) (path : string) (e : Errno) :
  fopen_r w path = inl e → ¬ (is_Some (files w !! path) ∧ path ∉ denied w).
Proof.
  intros He [Hs Hd].
  assert (fopen_r w path = inr (mkRFILE path 0)) by (by apply fopen_r_inr).
  congruence.
Qed.

(** One iteration from any state: what it prints does not depend on the
    state it starts from, unless the file is a truncated SMD file. *)
Lemma showInfoList_body_report (w : World) (filename : string)
    (st : InfoState) :
  length (info_tmpSMDBlock st) = NUM_SMD_BLOCK_BYTES →
  ¬ truncated_SMD w filename →
  length (info_tmpSMDBlock (showInfoList_body w filename st))
    = NUM_SMD_BLOCK_BYTES ∧
  info_console (showInfoList_body w filename st) =
  info_console st ++ showInfoList w [filename].
Proof.
  intros Hsmd Htrunc. unfold showInfoList. cbn [foldl].
  unfold showInfoList_body.
  cbn [info_tmpHeaderBytes info_tmpSMDBlock info_console].
  destruct (fopen_r w filename) as [e|f] eqn:Hopen.
  { cbn [info_tmpSMDBlock info_console]. split; [done | by rewrite ?app_nil_l, <- ?app_assoc]. }
  apply fopen_r_inr in Hopen as (-> & [data Hf] & Hden).
  assert (file_bytes w filename = data) as Hfb
    by (unfold file_bytes; by rewrite Hf).
  unfold fread. cbn [r_path r_pos]. rewrite !Hfb, !drop_0, !Nat.add_0_l.
  destruct (Nat.ltb_spec (length (take NUM_HEADER_BYTES data))
              NUM_HEADER_BYTES) as [Hshort|Hfull].
  { cbn [info_tmpSMDBlock info_console]. split; [done | by rewrite ?app_nil_l, <- ?app_assoc]. }
  rewrite length_take in Hfull.
  assert (length (take NUM_HEADER_BYTES data) = NUM_HEADER_BYTES) as Hhl
    by (rewrite length_take; lia).
  rewrite !Hhl.
  rewrite getLikelyFormat_app by done.
  destruct (getLikelyFormat (take NUM_HEADER_BYTES data)) eqn:Hfmt.
  - cbn [info_tmpSMDBlock info_console]. split; [done | by rewrite ?app_nil_l, <- ?app_assoc].
  - set (blk := take NUM_SMD_BLOCK_BYTES (drop NUM_HEADER_BYTES data)).
    destruct (Nat.ltb_spec (length blk) NUM_HEADER_BYTES) as [Hlt|Hge].
    + cbn [info_tmpSMDBlock info_console]. split.
      * rewrite length_app, length_drop. unfold blk.
        rewrite length_take. lia.
      * by rewrite ?app_nil_l, <- ?app_assoc.
    + assert (length blk = NUM_SMD_BLOCK_BYTES) as Hblk.
      { unfold blk in *. rewrite length_take in *.
        destruct (decide (NUM_SMD_BLOCK_BYTES
                          ≤ length (drop NUM_HEADER_BYTES data)));
          [lia|].
        exfalso. apply Htrunc. exists data.
        repeat split; try done; lia. }
      cbn [info_tmpSMDBlock info_console].
      rewrite Hblk.
      rewrite (drop_ge (info_tmpSMDBlock st)) by lia.
      rewrite (drop_ge (memset0 _))
        by (unfold memset0; rewrite length_replicate; lia).
      rewrite app_nil_r.
      split; [done | by rewrite ?app_nil_l, <- ?app_assoc].
  - cbn [info_tmpSMDBlock info_console]. split; [done | by rewrite ?app_nil_l, <- ?app_assoc].
Qed.

(** X6: [showInfoList] reports the files one by one: when no file of the
    list is a truncated SMD file (a block read of 512 to 16383 bytes, which
    is decoded over what the block buffer still holds), what is printed for
    the list is what is printed for each file alone, in order. *)
Theorem showInfoList_reports_each_file (w : World)
    (filenameList : list string) :
  Forall (λ f, ¬ truncated_SMD w f) filenameList →
  showInfoList w filenameList =
  flat_map (λ f, showInfoList w [f]) filenameList.
Proof.
  intros Hall.
  assert (∀ st, length (info_tmpSMDBlock st) = NUM_SMD_BLOCK_BYTES →
            info_console
              (foldl (λ st f, showInfoList_body w f st) st filenameList)
            = info_console st ++
              flat_map (λ f, showInfoList w [f]) filenameList) as Hloop.
  { induction Hall as [|f l Hf Hl IH]; intros st Hst; cbn [foldl flat_map].
    - by rewrite app_nil_r.
    - destruct (showInfoList_body_report w f st Hst Hf) as [Hlen Hcon].
      rewrite IH by done. by rewrite Hcon, app_assoc. }
  unfold showInfoList at 1. rewrite Hloop; [done|].
  unfold memset0. cbn [info_tmpSMDBlock]. by rewrite length_replicate.
Qed.

Lemma showInfoList_reports_each_file_witness :
  showInfoList check_world ["a.smd"; "missing.smd"] =
  flat_map (λ f, showInfoList check_world [f]) ["a.smd"; "missing.smd"].
Proof.
  apply showInfoList_reports_each_file.
  repeat constructor; intros (data & Hf & _ & _ & _ & Hlo & _).
  - vm_compute in Hf. injection Hf as <-. vm_compute in Hlo. lia.
  - vm_compute in Hf. discriminate.
Defined.

(** ** Converter: what is written and what is not *)

Lemma decodeBlocks_length n blocks :
  length (decodeBlocks n blocks) = n * NUM_SMD_BLOCK_BYTES.
Proof.
  revert blocks. induction n as [|n IH]; intros blocks; [done|].
  cbn [decodeBlocks]. rewrite length_app, IH, decodeSMDBlock_length.
  unfold memset0. rewrite length_replicate. lia.
Qed.

Lemma decodeBlocks_lookup n blocks b i :
  b < n → i < HALF_BLOCK →
  decodeBlocks n blocks !! (b * NUM_SMD_BLOCK_BYTES + (2 * i + 1))
    = Some (blocks !!! (b * NUM_SMD_BLOCK_BYTES + i)) ∧
  decodeBlocks n blocks !! (b * NUM_SMD_BLOCK_BYTES + 2 * i)
    = Some (blocks !!! (b * NUM_SMD_BLOCK_BYTES + i + HALF_BLOCK)).
Proof.
  pose proof block_is_two_halves as HN.
  revert blocks b. induction n as [|n IH]; intros blocks b Hb Hi; [lia|].
  cbn [decodeBlocks].
  assert (length (decodeSMDBlock (memset0 NUM_SMD_BLOCK_BYTES)
                    (take NUM_SMD_BLOCK_BYTES blocks))
          = NUM_SMD_BLOCK_BYTES) as Hlen.
  { rewrite decodeSMDBlock_length. unfold memset0.
    by rewrite length_replicate. }
  destruct b as [|b].
  - rewrite Nat.mul_0_l, !Nat.add_0_l.
    rewrite !lookup_app_l by lia.
    assert (length (memset0 NUM_SMD_BLOCK_BYTES) = NUM_SMD_BLOCK_BYTES)
      as Hz by (unfold memset0; apply length_replicate).
    rewrite (decodeSMDBlock_odd _ _ i Hi Hz),
      (decodeSMDBlock_even _ _ i Hi Hz).
    rewrite !lookup_total_take, !decide_True by lia.
    split; reflexivity.
  - rewrite !lookup_app_r by lia. rewrite Hlen.
    replace (S b * NUM_SMD_BLOCK_BYTES + (2 * i + 1) - NUM_SMD_BLOCK_BYTES)
      with (b * NUM_SMD_BLOCK_BYTES + (2 * i + 1)) by lia.
    replace (S b * NUM_SMD_BLOCK_BYTES + 2 * i - NUM_SMD_BLOCK_BYTES)
      with (b * NUM_SMD_BLOCK_BYTES + 2 * i) by lia.
    destruct (IH (drop NUM_SMD_BLOCK_BYTES blocks) b ltac:(lia) Hi)
      as [-> ->].
    rewrite !lookup_total_drop. split; do 2 f_equal; lia.
Qed.






(** ** Converter: failures of the environment *)

Lemma convertBlocks_disk_full n pos filename out w con data :
  filename ≠ out →
  files w !! filename = Some data →
  pos + n * NUM_SMD_BLOCK_BYTES ≤ length data →
  space w < n * NUM_SMD_BLOCK_BYTES →
  (convertBlocks n (mkRFILE filename pos) out (mkConvState w con)).1 = false.
Proof.
  intros Hne. revert pos w.
  induction n as [|n IH]; intros pos w Hin Hlen Hspace; [lia|].
  pose proof NUM_SMD_BLOCK_BYTES_pos as HN.
  cbn [convertBlocks conv_world conv_console].
  assert (length (take NUM_SMD_BLOCK_BYTES (drop pos data))
          = NUM_SMD_BLOCK_BYTES) as Hblk
    by (rewrite length_take, length_drop; lia).
  unfold fread. cbn [r_path r_pos].
  assert (file_bytes w filename = data) as ->
    by (unfold file_bytes; by rewrite Hin).
  rewrite Hblk, Nat.ltb_irrefl.
  unfold fwrite.
  destruct (Nat.ltb_spec (NUM_SMD_BLOCK_BYTES `min` space w)
              NUM_SMD_BLOCK_BYTES) as [Hshort|Hfull]; [reflexivity|].
  apply IH; cbn [files space].
  - by rewrite lookup_insert_ne.
  - lia.
  - lia.
Qed.

(** An iteration that falls through to the next file either skipped the
    file on a collision or converted it completely. *)
Lemma convertFiles_body_Next_inv outdir act filename w con st :
  convertFiles_body outdir act filename (mkConvState w con) = Next st →
  (QFileInfo_exists w (outFileFullPath outdir filename) = true ∧
   act = SKIP ∧ conv_world st = w) ∨
  (¬ (QFileInfo_exists w (outFileFullPath outdir filename) = true ∧
      act = SKIP) ∧
   ∃ data,
     files w !! filename = Some data ∧
     (filename ∉ denied w) ∧ (outFileFullPath outdir filename ∉ denied w) ∧
     NUM_HEADER_BYTES + NUM_SMD_BLOCK_BYTES ≤ length data ∧
     (length data - NUM_HEADER_BYTES) `mod` NUM_SMD_BLOCK_BYTES = 0 ∧
     length data - NUM_HEADER_BYTES ≤ space w ∧
     conv_world st =
     mkWorld
       (<[outFileFullPath outdir filename :=
            decodeBlocks
              ((length data - NUM_HEADER_BYTES) / NUM_SMD_BLOCK_BYTES)
              (drop NUM_HEADER_BYTES data)]> (files w))
       (denied w) (space w - (length data - NUM_HEADER_BYTES))).
Proof.
  set (out := outFileFullPath outdir filename).
  assert (∀ con', convertData filename out (mkConvState w con') = Next st →
    ∃ data,
     files w !! filename = Some data ∧
     (filename ∉ denied w) ∧ (out ∉ denied w) ∧
     NUM_HEADER_BYTES + NUM_SMD_BLOCK_BYTES ≤ length data ∧
     (length data - NUM_HEADER_BYTES) `mod` NUM_SMD_BLOCK_BYTES = 0 ∧
     length data - NUM_HEADER_BYTES ≤ space w ∧
     conv_world st =
     mkWorld
       (<[out := decodeBlocks
              ((length data - NUM_HEADER_BYTES) / NUM_SMD_BLOCK_BYTES)
              (drop NUM_HEADER_BYTES data)]> (files w))
       (denied w) (space w - (length data - NUM_HEADER_BYTES))) as Hdata.
  { intros con' Hnext.
    pose proof NUM_SMD_BLOCK_BYTES_pos as HN.
    assert (filename ≠ out) as Hne by apply outFileFullPath_ne.
    destruct (decide (QFileInfo_size w filename
                      < NUM_HEADER_BYTES + NUM_SMD_BLOCK_BYTES
                      ∨ (QFileInfo_size w filename - NUM_HEADER_BYTES)
                          `mod` NUM_SMD_BLOCK_BYTES ≠ 0)) as [Hbad|Hok].
    { destruct (convertData_bad_size filename out (mkConvState w con') Hbad)
        as [line Hline]. congruence. }
    destruct (fopen_r w filename) as [e|f] eqn:Hopen.
    { unfold convertData in Hnext. cbn [conv_world conv_console] in Hnext.
      rewrite Hopen in Hnext.
      destruct (_ <? _); [done|]. by destruct (0 <? _). }
    apply fopen_r_inr in Hopen as (-> & [data Hf] & Hden).
    assert (QFileInfo_size w filename = length data) as Hsz
      by (unfold QFileInfo_size, file_bytes; by rewrite Hf).
    rewrite Hsz in Hok.
    destruct (decide (out ∈ denied w)) as [Hdo|Hdo].
    { unfold convertData in Hnext. cbn [conv_world conv_console] in Hnext.
      unfold fopen_w in Hnext. rewrite decide_True in Hnext by done.
      destruct (_ <? _); [done|]. destruct (0 <? _); [done|].
      by destruct (fopen_r w filename). }
    assert (NUM_HEADER_BYTES + NUM_SMD_BLOCK_BYTES ≤ length data ∧
            (length data - NUM_HEADER_BYTES) `mod` NUM_SMD_BLOCK_BYTES = 0)
      as [Hsize Hmod] by lia.
    exists data.
    destruct (decide (length data - NUM_HEADER_BYTES ≤ space w))
      as [Hsp|Hsp].
    - rewrite (convertData_ok filename out w con' data) in Hnext by done.
      injection Hnext as <-. by repeat split.
    - exfalso.
      pose proof (Nat.div_mod_eq (length data - NUM_HEADER_BYTES)
                    NUM_SMD_BLOCK_BYTES) as Hdm.
      rewrite Hmod in Hdm.
      set (n := (length data - NUM_HEADER_BYTES) / NUM_SMD_BLOCK_BYTES)
        in *.
      unfold convertData in Hnext. cbn [conv_world conv_console] in Hnext.
      rewrite Hsz in Hnext. fold n in Hnext.
      assert (fopen_r w filename = inr (mkRFILE filename 0)) as Hopen
        by (apply fopen_r_inr; eauto).
      rewrite Hopen in Hnext.
      unfold fopen_w in Hnext. rewrite decide_False in Hnext by done.
      destruct (_ <? _); [done|]. destruct (0 <? _); [done|].
      unfold fseek_set in Hnext. cbn [r_path] in Hnext.
      pose proof (convertBlocks_disk_full n NUM_HEADER_BYTES filename out
        (mkWorld (<[out:=[]]> (files w)) (denied w) (space w)) con' data
        Hne) as Hfull.
      cbn [files space] in Hfull.
      rewrite lookup_insert_ne in Hfull by done.
      specialize (Hfull Hf ltac:(lia) ltac:(lia)).
      destruct (convertBlocks n _ out _) as [[] st']; [done|done]. }
  intros Hnext. unfold convertFiles_body in Hnext.
  cbn [conv_world conv_console] in Hnext. fold out in Hnext.
  destruct (QFileInfo_exists w out) eqn:Hex.
  - destruct act.
    + right. split; [by intros [_ ?]|]. by apply Hdata in Hnext.
    + done.
    + right. split; [by intros [_ ?]|]. by apply Hdata in Hnext.
    + left. injection Hnext as <-. done.
  - right. split; [by intros [? _]|]. by apply Hdata in Hnext.
Qed.

Lemma convertFiles_head_true filename rest outdir act w :
  (convertFiles (filename :: rest) outdir act w).1.1 = true →
  ∃ st, convertFiles_body outdir act filename (mkConvState w []) = Next st.
Proof.
  rewrite convertFiles_cons.
  destruct (convertFiles_body outdir act filename (mkConvState w []))
    as [st|b st] eqn:Hbody; [eauto|].
  rewrite (convertFiles_body_Return _ _ _ _ _ _ Hbody). done.
Qed.

(** X8: when [convertFiles] goes on after a file: exactly when the file is
    skipped (its output exists and the policy is Skip), or there is no
    collision under Stop and the input is present and opens, the output can
    be opened for writing, the size is 512 bytes plus a positive whole
    number of 16384-byte blocks, and the device takes all the blocks.  In
    every other case [convertFiles] returns false whatever files follow. *)
Theorem convertFiles_succeeds_iff (outdir : string)
    (fileCollisionAction : FileCheckAction) (w : World) (filename : string) :
  let collides := QFileInfo_exists w (outFileFullPath outdir filename) in
  let goes_on :=
    (collides = true ∧ fileCollisionAction = SKIP) ∨
    (¬ (collides = true ∧ fileCollisionAction = STOP) ∧
     convertible w outdir filename) in
  ((convertFiles [filename] outdir fileCollisionAction w).1.1 = true
   ↔ goes_on) ∧
  (¬ goes_on →
   ∀ rest,
     (convertFiles (filename :: rest) outdir fileCollisionAction w).1.1
     = false).
Proof.
  intros collides goes_on.
  assert (∀ rest,
    (convertFiles (filename :: rest) outdir fileCollisionAction w).1.1 = true
    → goes_on) as Hinv.
  { intros rest Htrue.
    destruct (convertFiles_head_true _ _ _ _ _ Htrue) as [st Hbody].
    destruct (convertFiles_body_Next_inv _ _ _ _ _ _ Hbody)
      as [(Hex & Hact & _)|(Hskip & data & Hconv)].
    - by left.
    - right. split; [|exists data; tauto].
      intros [Hex ->].
      by rewrite convertFiles_body_exists in Hbody. }
  split; [split; [apply Hinv|]|].
  - intros [[Hex ->]|[Hstop (data & Hf & Hdi & Hdo & Hsz & Hmod & Hsp)]].
    + by rewrite convertFiles_cons, convertFiles_body_exists.
    + rewrite convertFiles_cons.
      destruct collides eqn:Hex; subst collides.
      * rewrite convertFiles_body_exists by done. cbv zeta.
        destruct fileCollisionAction; try done;
          [| by destruct Hstop |];
          by rewrite (convertData_ok filename _ w _ data)
            by (done || apply outFileFullPath_ne).
      * rewrite convertFiles_body_fresh by done.
        by rewrite (convertData_ok filename _ w _ data)
          by (done || apply outFileFullPath_ne).
  - intros Hno rest.
    destruct ((convertFiles (filename :: rest) outdir fileCollisionAction w)
                .1.1) eqn:Hres; [|done].
    destruct Hno. by apply (Hinv rest).
Qed.

(** X9: what a conversion writes: when [convertFiles] returns true for a
    file it did not skip, the output file has the input's size minus 512
    bytes, and in each 16384-byte block [b] the output byte [2i+1] is the
    input byte [i] of that block and the output byte [2i] is the input byte
    [i+8192] of that block (input positions counted after the 512-byte
    header). *)
Theorem convertFiles_output_bytes (outdir : string)
    (fileCollisionAction : FileCheckAction) (w w' : World)
    (filename : string) (con : list Line) :
  convertFiles [filename] outdir fileCollisionAction w = (true, w', con) →
  ¬ (QFileInfo_exists w (outFileFullPath outdir filename) = true ∧
     fileCollisionAction = SKIP) →
  ∃ data bin,
    files w !! filename = Some data ∧
    files w' !! outFileFullPath outdir filename = Some bin ∧
    length bin = length data - NUM_HEADER_BYTES ∧
    ∀ b i,
      b < (length data - NUM_HEADER_BYTES) / NUM_SMD_BLOCK_BYTES →
      i < HALF_BLOCK →
      bin !! (b * NUM_SMD_BLOCK_BYTES + (2 * i + 1))
        = data !! (NUM_HEADER_BYTES + b * NUM_SMD_BLOCK_BYTES + i) ∧
      bin !! (b * NUM_SMD_BLOCK_BYTES + 2 * i)
        = data !! (NUM_HEADER_BYTES + b * NUM_SMD_BLOCK_BYTES + i
                   + HALF_BLOCK).
Proof.
  intros Hconv Hskip.
  assert ((convertFiles [filename] outdir fileCollisionAction w).1.1 = true)
    as Htrue by (by rewrite Hconv).
  destruct (convertFiles_head_true _ _ _ _ _ Htrue) as [st Hbody].
  rewrite convertFiles_cons, Hbody in Hconv.
  change (convertFiles [] outdir fileCollisionAction (conv_world st))
    with (true, conv_world st, @nil Line) in Hconv.
  cbv beta iota zeta in Hconv. injection Hconv as Hw _.
  destruct (convertFiles_body_Next_inv _ _ _ _ _ _ Hbody)
    as [(Hex & Hact & _)|(_ & data & Hf & _ & _ & Hsz & Hmod & _ & Hst)];
    [destruct Hskip; split; assumption|].
  pose proof block_is_two_halves as HN.
  set (n := (length data - NUM_HEADER_BYTES) / NUM_SMD_BLOCK_BYTES) in *.
  assert (length data - NUM_HEADER_BYTES = n * NUM_SMD_BLOCK_BYTES) as Hn.
  { pose proof (Nat.div_mod_eq (length data - NUM_HEADER_BYTES)
                  NUM_SMD_BLOCK_BYTES) as Hdm.
    rewrite Hmod in Hdm. fold n in Hdm. lia. }
  exists data, (decodeBlocks n (drop NUM_HEADER_BYTES data)).
  split; [done|]. split; [|split].
  - rewrite <- Hw, Hst. cbn [files]. by rewrite lookup_insert_eq.
  - by rewrite decodeBlocks_length.
  - intros b i Hb Hi.
    destruct (decodeBlocks_lookup n (drop NUM_HEADER_BYTES data) b i Hb Hi)
      as [-> ->].
    rewrite !lookup_total_drop.
    assert (S b * NUM_SMD_BLOCK_BYTES ≤ n * NUM_SMD_BLOCK_BYTES) as Hle
      by (apply Nat.mul_le_mono_r; lia).
    split; rewrite list_lookup_lookup_total_lt by lia;
      do 2 f_equal; lia.
Qed.

(** The one-block file of [overwrite_world], converted under Warn. *)
Lemma overwrite_world_converted :
  convertFiles ["game.smd"] "out" WARN overwrite_world =
  (true,
   mkWorld (<["out/game.bin" := decodeBlocks 1 sample_block]>
              (files overwrite_world)) ∅ 0,
   [ Out "Converting game.smd";
     Out "        to out/game.bin";
     Err "  NGROM WARNING: Output file already exists!";
     Out "  Conversion complete!" ]).
Proof.
  rewrite convertFiles_cons, convertFiles_body_exists by reflexivity.
  cbv zeta.
  rewrite (convertData_ok "game.smd" _ overwrite_world _
             (smd_header ++ sample_block)).
  - assert (length (smd_header ++ sample_block) - NUM_HEADER_BYTES
            = NUM_SMD_BLOCK_BYTES) as -> by (vm_compute; reflexivity).
    assert (NUM_SMD_BLOCK_BYTES / NUM_SMD_BLOCK_BYTES = 1) as ->
      by (vm_compute; reflexivity).
    assert (drop NUM_HEADER_BYTES (smd_header ++ sample_block)
            = sample_block) as -> by (vm_compute; reflexivity).
    cbn [conv_world conv_console].
    change (convertFiles [] "out" WARN ?w) with (true, w, @nil Line).
    cbv beta iota. unfold overwrite_world at 2 3. cbn [denied space].
    rewrite Nat.sub_diag. reflexivity.
  - apply outFileFullPath_ne.
  - reflexivity.
  - vm_compute. intros H. inversion H.
  - vm_compute. intros H. inversion H.
  - apply Nat.leb_le. vm_compute. reflexivity.
  - vm_compute. reflexivity.
  - apply Nat.leb_le. vm_compute. reflexivity.
Qed.

Lemma convertFiles_output_bytes_witness :
  ∃ data bin,
    files overwrite_world !! "game.smd" = Some data ∧
    <["out/game.bin" := decodeBlocks 1 sample_block]>
      (files overwrite_world) !! "out/game.bin" = Some bin ∧
    length bin = length data - NUM_HEADER_BYTES ∧
    ∀ b i,
      b < (length data - NUM_HEADER_BYTES) / NUM_SMD_BLOCK_BYTES →
      i < HALF_BLOCK →
      bin !! (b * NUM_SMD_BLOCK_BYTES + (2 * i + 1))
        = data !! (NUM_HEADER_BYTES + b * NUM_SMD_BLOCK_BYTES + i) ∧
      bin !! (b * NUM_SMD_BLOCK_BYTES + 2 * i)
        = data !! (NUM_HEADER_BYTES + b * NUM_SMD_BLOCK_BYTES + i
                   + HALF_BLOCK).
Proof.
  apply (convertFiles_output_bytes "out" WARN overwrite_world _ "game.smd" _
           overwrite_world_converted).
  intros [_ H]. discriminate.
Defined.

(** ** Info before and after conversion *)

(** What [showInfoList] prints for one file that opens, has a full header
    and is detected as BIN. *)
Lemma showInfoList_BIN_file (w : World) (filename : string)
    (data : list byte) :
  files w !! filename = Some data → filename ∉ denied w →
  NUM_HEADER_BYTES ≤ length data →
  getLikelyFormat (take NUM_HEADER_BYTES data) = BIN →
  showInfoList w [filename] =
    Out ("Showing info from ROM data for file: " +:+ filename) ::
    showHeaderFields
      (take NUM_HEADER_BYTES data
       ++ drop NUM_HEADER_BYTES (memset0 NUM_SMD_BLOCK_BYTES)).
Proof.
  intros Hf Hden Hlen Hfmt.
  unfold showInfoList. cbn [foldl]. unfold showInfoList_body.
  assert (fopen_r w filename = inr (mkRFILE filename 0)) as ->
    by (apply fopen_r_inr; eauto).
  cbn [info_tmpHeaderBytes info_tmpSMDBlock info_console].
  assert (file_bytes w filename = data) as Hfb
    by (unfold file_bytes; by rewrite Hf).
  assert (length (take NUM_HEADER_BYTES data) = NUM_HEADER_BYTES) as Hhl
    by (rewrite length_take; lia).
  unfold fread. cbn [r_path r_pos]. rewrite !Hfb, !drop_0.
  rewrite !Hhl, Nat.ltb_irrefl.
  rewrite getLikelyFormat_app by done. rewrite Hfmt.
  reflexivity.
Qed.

Lemma NUM_HEADER_BYTES_le_block : NUM_HEADER_BYTES ≤ NUM_SMD_BLOCK_BYTES.
Proof. pose proof NUM_SMD_BLOCK_BYTES_Z. unfold NUM_HEADER_BYTES. lia. Qed.

(** X10: the report survives conversion: when a file detected as SMD is
    converted and the output is detected as BIN, [showInfoList] prints the
    same thirteen field lines for the input before the conversion and for
    the output after it. *)
Theorem showInfoList_after_convertFiles (outdir : string)
    (fileCollisionAction : FileCheckAction) (w w' : World)
    (filename : string) (con : list Line) :
  convertFiles [filename] outdir fileCollisionAction w = (true, w', con) →
  ¬ (QFileInfo_exists w (outFileFullPath outdir filename) = true ∧
     fileCollisionAction = SKIP) →
  detected_as SMD w filename →
  detected_as BIN w' (outFileFullPath outdir filename) →
  ∃ fields,
    showInfoList w [filename] =
      Out ("Showing info from ROM data for file: " +:+ filename) :: fields ∧
    showInfoList w' [outFileFullPath outdir filename] =
      Out ("Showing info from ROM data for file: "
           +:+ outFileFullPath outdir filename) :: fields.
Proof.
  intros Hconv Hskip (data0 & Hf0 & Hd0 & Hlen0 & Hsmd)
    (bin & Hbin & Hdbin & Hlenbin & Hfmtbin).
  assert ((convertFiles [filename] outdir fileCollisionAction w).1.1 = true)
    as Htrue by (by rewrite Hconv).
  destruct (convertFiles_head_true _ _ _ _ _ Htrue) as [st Hbody].
  rewrite convertFiles_cons, Hbody in Hconv.
  change (convertFiles [] outdir fileCollisionAction (conv_world st))
    with (true, conv_world st, @nil Line) in Hconv.
  cbv beta iota zeta in Hconv. injection Hconv as Hw _.
  destruct (convertFiles_body_Next_inv _ _ _ _ _ _ Hbody)
    as [(Hex & Hact & _)|(_ & data & Hf & _ & _ & Hsz & Hmod & _ & Hst)];
    [destruct Hskip; split; assumption|].
  rewrite Hf in Hf0. injection Hf0 as <-.
  pose proof Hbin as Hbin0.
  rewrite <- Hw, Hst in Hbin. cbn [files] in Hbin.
  rewrite lookup_insert_eq in Hbin. injection Hbin as Hbin.
  pose proof NUM_HEADER_BYTES_le_block as HhN.
  pose proof NUM_SMD_BLOCK_BYTES_pos as HN.
  set (n := (length data - NUM_HEADER_BYTES) / NUM_SMD_BLOCK_BYTES) in *.
  assert (length data - NUM_HEADER_BYTES = n * NUM_SMD_BLOCK_BYTES) as Hn.
  { pose proof (Nat.div_mod_eq (length data - NUM_HEADER_BYTES)
                  NUM_SMD_BLOCK_BYTES) as Hdm.
    rewrite Hmod in Hdm. fold n in Hdm. lia. }
  destruct n as [|n]; [lia|]. cbn [decodeBlocks] in Hbin.
  set (blk := take NUM_SMD_BLOCK_BYTES (drop NUM_HEADER_BYTES data)) in *.
  assert (length blk = NUM_SMD_BLOCK_BYTES) as Hblk.
  { unfold blk. rewrite length_take, length_drop. lia. }
  set (decoded := decodeSMDBlock (memset0 NUM_SMD_BLOCK_BYTES) blk) in *.
  assert (length decoded = NUM_SMD_BLOCK_BYTES) as Hdec.
  { unfold decoded, memset0.
    by rewrite decodeSMDBlock_length, length_replicate. }
  exists (showHeaderFields decoded). split.
  - rewrite (showInfoList_SMD_file w filename data) by assumption.
    cbv zeta. fold blk. rewrite Hblk.
    destruct (Nat.ltb_spec NUM_SMD_BLOCK_BYTES NUM_HEADER_BYTES); [lia|].
    rewrite (drop_ge (memset0 _))
      by (unfold memset0; rewrite length_replicate; lia).
    by rewrite app_nil_r.
  - rewrite (showInfoList_BIN_file w' _ bin); try assumption.
    + refine (f_equal (cons _) _). apply showHeaderFields_ext.
      assert (length (take NUM_HEADER_BYTES bin) = NUM_HEADER_BYTES) as Hhl
        by (rewrite length_take; lia).
      unfold NUM_HEADER_BYTES in *.
      rewrite drop_app_le by lia.
      rewrite take_app_le by (rewrite length_drop; lia).
      rewrite skipn_firstn_comm, take_take.
      change (0x100 `min` (512 - 0x100)) with 0x100.
      rewrite <- Hbin.
      rewrite drop_app_le by lia.
      rewrite take_app_le by (rewrite length_drop; lia).
      reflexivity.
Qed.

Lemma sega_world_converted :
  convertFiles ["sonic.smd"] "out" SKIP sega_world =
  (true,
   mkWorld (<["out/sonic.bin" := decodeBlocks 1 sega_block]>
              (files sega_world)) ∅ 0,
   [ Out "Converting sonic.smd";
     Out "        to out/sonic.bin";
     Out "  Conversion complete!" ]).
Proof.
  rewrite convertFiles_cons, convertFiles_body_fresh by reflexivity.
  rewrite (convertData_ok "sonic.smd" _ sega_world _
             (smd_header ++ sega_block)).
  - assert (length (smd_header ++ sega_block) - NUM_HEADER_BYTES
            = NUM_SMD_BLOCK_BYTES) as -> by (vm_compute; reflexivity).
    assert (NUM_SMD_BLOCK_BYTES / NUM_SMD_BLOCK_BYTES = 1) as ->
      by (vm_compute; reflexivity).
    assert (drop NUM_HEADER_BYTES (smd_header ++ sega_block)
            = sega_block) as -> by (vm_compute; reflexivity).
    cbn [conv_world conv_console].
    change (convertFiles [] "out" SKIP ?w) with (true, w, @nil Line).
    cbv beta iota. unfold sega_world at 2 3. cbn [denied space].
    rewrite Nat.sub_diag. reflexivity.
  - apply outFileFullPath_ne.
  - reflexivity.
  - vm_compute. intros H. inversion H.
  - vm_compute. intros H. inversion H.
  - apply Nat.leb_le. vm_compute. reflexivity.
  - vm_compute. reflexivity.
  - apply Nat.leb_le. vm_compute. reflexivity.
Qed.

Lemma showInfoList_after_convertFiles_witness :
  ∃ fields,
    showInfoList sega_world ["sonic.smd"] =
      Out "Showing info from ROM data for file: sonic.smd" :: fields ∧
    showInfoList
      (mkWorld (<["out/sonic.bin" := decodeBlocks 1 sega_block]>
                  (files sega_world)) ∅ 0)
      ["out/sonic.bin"] =
      Out "Showing info from ROM data for file: out/sonic.bin" :: fields.
Proof.
  apply (showInfoList_after_convertFiles "out" SKIP sega_world _ "sonic.smd"
           _ sega_world_converted).
  - intros [H _]. vm_compute in H. discriminate.
  - exists (smd_header ++ sega_block). split; [reflexivity|].
    split; [vm_compute; intros H; inversion H|].
    split; [apply Nat.leb_le; vm_compute; reflexivity|].
    vm_compute. reflexivity.
  - exists (decodeBlocks 1 sega_block). split; [reflexivity|].
    split; [apply not_elem_of_empty|].
    split.
    + rewrite decodeBlocks_length.
      pose proof NUM_HEADER_BYTES_le_block. lia.
    + vm_compute. reflexivity.
Defined.

(** ** The command line *)

Lemma parseFileCheckActionString_UNSET (s : string) :
  parseFileCheckActionString s = UNSET ↔ s ∉ policy_words.
Proof.
  unfold parseFileCheckActionString, policy_words.
  rewrite !not_elem_of_cons.
  repeat case_decide; split; try done; try tauto; intros; subst;
    repeat split; try done; apply not_elem_of_nil.
Qed.


(** X12: under the check policy stop, when some file fails the SMD check
    [main] exits with code 2 after the checker's lines and the stop notice:
    the file system is unchanged, and neither [--info] nor the conversion
    runs. *)
Theorem main_stop_policy (cl : CommandLine) (w : World) :
  positionalArguments cl ≠ [] →
  checks_value cl = "stop" →
  file_collision_value cl ∈ policy_words →
  ¬ Forall (file_passes SMD w) (positionalArguments cl) →
  (main cl w).1.1 = 2 ∧ (main cl w).1.2 = w ∧
  (main cl w).2 =
  Console <$> ((checkFormats SMD w (positionalArguments cl)).2 ++
    [Out "NGROM stopping due to failed SMD format check on one or more files"]).
Proof.
  intros Hargs Hchecks Hfile Hfail.
  assert (parseFileCheckActionString (file_collision_value cl) ≠ UNSET)
    as Hf.
  { rewrite parseFileCheckActionString_UNSET. tauto. }
  assert ((checkFormats SMD w (positionalArguments cl)).1 = false) as Hrc.
  { destruct (checkFormats_loop w SMD (positionalArguments cl)
                (mkCheckState true (memset0 NUM_HEADER_BYTES) [])
                ltac:(done)) as (st' & Hloop & Hret & _).
    unfold checkFormats. rewrite Hloop. cbn [fst].
    destruct (chk_retval st'); [|done].
    destruct Hfail. by apply Hret. }
  unfold main. rewrite Hchecks.
  rewrite decide_False by done.
  change (parseFileCheckActionString "stop") with STOP.
  rewrite (decide_False (P := STOP = UNSET)) by done.
  rewrite (decide_False
             (P := parseFileCheckActionString (file_collision_value cl)
                   = UNSET)) by done.
  rewrite (decide_False (P := STOP = SKIP)) by done.
  destruct (checkFormats SMD w (positionalArguments cl)) as [rc con].
  cbn [fst snd] in *. subst rc. done.
Qed.

Lemma main_stop_policy_witness :
  (main sample_command_line check_world).1.1 = 2 ∧
  (main sample_command_line check_world).1.2 = check_world ∧
  (main sample_command_line check_world).2 =
  Console <$> ((checkFormats SMD check_world ["missing.smd"]).2 ++
    [Out "NGROM stopping due to failed SMD format check on one or more files"]).
Proof.
  apply (main_stop_policy sample_command_line check_world).
  - discriminate.
  - reflexivity.
  - apply (bool_decide_unpack _). vm_compute. exact I.
  - intros H. apply Forall_cons in H as [(data & Hf & _) _].
    vm_compute in Hf. discriminate.
Defined.

(** X13: the two checks exclude each other: a non-empty list of files that
    passes the SMD check fails the BIN check. *)
Theorem checkFormats_SMD_excludes_BIN (w : World)
    (filenameList : list string) :
  filenameList ≠ [] →
  (checkFormats SMD w filenameList).1 = true →
  (checkFormats BIN w filenameList).1 = false.
Proof.
  intros Hne Hsmd.
  destruct (checkFormats_loop w SMD filenameList
              (mkCheckState true (memset0 NUM_HEADER_BYTES) [])
              ltac:(done)) as (st1 & Hloop1 & Hret1 & _).
  destruct (checkFormats_loop w BIN filenameList
              (mkCheckState true (memset0 NUM_HEADER_BYTES) [])
              ltac:(done)) as (st2 & Hloop2 & Hret2 & _).
  unfold checkFormats in *. rewrite Hloop1 in Hsmd. rewrite Hloop2.
  cbn [fst] in *.
  destruct (chk_retval st2); [|done].
  apply Hret1 in Hsmd as [_ Hall1].
  destruct Hret2 as [Hall2 _]. destruct (Hall2 eq_refl) as [_ Hall2'].
  destruct filenameList as [|f l]; [done|].
  apply Forall_cons in Hall1 as [(d1 & Hf1 & _ & _ & _ & Hno) _].
  apply Forall_cons in Hall2' as [(d2 & Hf2 & _ & _ & Hyes) _].
  rewrite Hf1 in Hf2. injection Hf2 as <-. by destruct Hno.
Qed.

Lemma checkFormats_SMD_excludes_BIN_witness :
  (checkFormats BIN check_world ["a.smd"]).1 = false.
Proof.
  apply checkFormats_SMD_excludes_BIN; [discriminate|].
  vm_compute. reflexivity.
Defined.

(** X14: a file that does not open, has fewer than 512 bytes, or carries
    neither marker is skipped by [showInfoList] with three lines: the
    "Showing" line, one error line and the "skipping" line; no field is
    printed. *)
Theorem showInfoList_skips_unusable_file (w : World) (filename : string) :
  ¬ (∃ data, files w !! filename = Some data ∧ (filename ∉ denied w) ∧
             NUM_HEADER_BYTES ≤ length data ∧
             getLikelyFormat (take NUM_HEADER_BYTES data) ≠ UNK_FMT) →
  ∃ message,
    showInfoList w [filename] =
    [ Out ("Showing info from ROM data for file: " +:+ filename);
      Err message;
      Out "  ... skipping." ].
Proof.
  intros Hbad. unfold showInfoList. cbn [foldl].
  unfold showInfoList_body.
  cbn [info_tmpHeaderBytes info_tmpSMDBlock info_console].
  destruct (fopen_r w filename) as [e|f] eqn:Hopen; [by eexists|].
  apply fopen_r_inr in Hopen as (-> & [data Hf] & Hden).
  assert (file_bytes w filename = data) as Hfb
    by (unfold file_bytes; by rewrite Hf).
  unfold fread. cbn [r_path r_pos]. rewrite !Hfb, !drop_0, !Nat.add_0_l.
  destruct (Nat.ltb_spec (length (take NUM_HEADER_BYTES data))
              NUM_HEADER_BYTES) as [Hshort|Hfull]; [by eexists|].
  rewrite length_take in Hfull.
  assert (length (take NUM_HEADER_BYTES data) = NUM_HEADER_BYTES) as Hhl
    by (rewrite length_take; lia).
  rewrite !Hhl. rewrite getLikelyFormat_app by done.
  destruct (getLikelyFormat (take NUM_HEADER_BYTES data)) eqn:Hfmt;
    [by eexists| |];
    destruct Hbad; exists data; rewrite Hfmt; repeat split; try done; lia.
Qed.

Lemma showInfoList_skips_unusable_file_witness :
  ∃ message,
    showInfoList check_world ["missing.smd"] =
    [ Out "Showing info from ROM data for file: missing.smd";
      Err message;
      Out "  ... skipping." ].
Proof.
  apply showInfoList_skips_unusable_file.
  intros (data & Hf & _). vm_compute in Hf. discriminate.
Defined.

(** X15: for a file detected as BIN, [showInfoList] prints the fields of the
    file's own leading bytes, undecoded. *)
Theorem showInfoList_BIN_shows_raw_header (w : World) (filename : string)
    (data : list byte) :
  files w !! filename = Some data → filename ∉ denied w →
  NUM_HEADER_BYTES ≤ length data →
  getLikelyFormat (take NUM_HEADER_BYTES data) = BIN →
  showInfoList w [filename] =
  Out ("Showing info from ROM data for file: " +:+ filename) ::
  showHeaderFields data.
Proof.
  intros Hf Hden Hlen Hfmt.
  rewrite (showInfoList_BIN_file w filename data) by assumption.
  refine (f_equal (cons _) _). apply showHeaderFields_ext.
  unfold NUM_HEADER_BYTES in *.
  rewrite drop_app_le by (rewrite length_take; lia).
  rewrite take_app_le by (rewrite length_drop, length_take; lia).
  rewrite skipn_firstn_comm, take_take.
  reflexivity.
Qed.

Lemma showInfoList_BIN_shows_raw_header_witness :
  showInfoList bin_world ["sonic.bin"] =
  Out "Showing info from ROM data for file: sonic.bin" ::
  showHeaderFields
    (replicate 0x100 x00 ++ ["S"; "E"; "G"; "A"]%byte ++ replicate 252 x00).
Proof.
  apply (showInfoList_BIN_shows_raw_header bin_world "sonic.bin").
  - reflexivity.
  - apply not_elem_of_empty.
  - apply Nat.leb_le. vm_compute. reflexivity.
  - vm_compute. reflexivity.
Defined.
